(** * InsightBoard: the live-metrics subsystem of the dashboard front end

    A shallow embedding of

    - [frontend/src/services/api.ts]        (the [Metric] interface,
      [handleError] and [getDashboardMetrics]),
    - [frontend/src/components/MetricChart.tsx] (the [MetricDataPoint] interface),
    - [frontend/src/pages/Dashboard.tsx]    (the snapshot seed, the
      [metric_update] handler with its two state updaters,
      [handleDashboardSelect], [handleDeleteMetric] and the effect that
      drives the manager),
    - [frontend/src/services/websocket.ts]  (the [WebSocketManager] class),

    followed by the properties of the reconciliation and of the connection
    state machine.

    Conventions.  A JavaScript [number] that carries a measurement is a
    binary64 float ([PrimFloat.float]); a [number] that is a counter or an
    identifier is a [Z].  A [Record<string, T[]>] used as a dictionary is a
    plain object: its own properties (a [gmap string (list T)]) and its
    prototype, through which a read also finds the names every object
    inherits.  An array is a [list].
    [console.log] and [console.error] write nothing the program reads back and
    are left out. *)

From Stdlib Require Import ZArith Floats.
From stdpp Require Import gmap strings list fin_maps pretty.

Local Open Scope Z_scope.

(** ** services/api.ts *)

Module Api.

Inductive MetricType := gauge | counter | histogram.

Record Metric := {
  id : Z;
  name : string;
  value : float;
  metric_type : MetricType;
  dashboard_id : Z;
  created_at : string
}.

End Api.

(** ** components/MetricChart.tsx *)

Module MetricChart.

Record MetricDataPoint := {
  timestamp : string;
  value : float
}.

End MetricChart.

(** ** JavaScript array helpers used by the page *)

Module Js.

(** [arr.slice(-n)]: the start index is [max (length - n) 0], so a shorter
    array comes back whole. *)
Definition slice_last {A} (n : nat) (arr : list A) : list A :=
  drop (length arr - n) arr.

(** [arr.findIndex(p)]: the first index whose element satisfies [p];
    [None] stands for the result [-1]. *)
Fixpoint findIndex {A} (p : A -> bool) (arr : list A) : option nat :=
  match arr with
  | [] => None
  | x :: rest => if p x then Some 0%nat else S <$> findIndex p rest
  end.

(** Truthiness of a [string | null]: [null] and the empty string are falsy. *)
Definition truthy (s : option string) : bool :=
  match s with
  | None => false
  | Some s => negb (String.eqb s EmptyString)
  end.

(** *** Plain objects used as dictionaries of arrays

    The string-keyed properties of [Object.prototype] (ECMAScript with its
    Annex B), which every plain object inherits, and those of
    [Array.prototype] (ECMAScript 2023), which an object inherits as well when
    its prototype is an array. *)
Definition Object_prototype_names : list string :=
  ["constructor"; "hasOwnProperty"; "isPrototypeOf"; "propertyIsEnumerable";
   "toLocaleString"; "toString"; "valueOf"; "__proto__";
   "__defineGetter__"; "__defineSetter__"; "__lookupGetter__";
   "__lookupSetter__"].

Definition Array_prototype_names : list string :=
  ["at"; "concat"; "constructor"; "copyWithin"; "entries"; "every"; "fill";
   "filter"; "find"; "findIndex"; "findLast"; "findLastIndex"; "flat";
   "flatMap"; "forEach"; "includes"; "indexOf"; "join"; "keys";
   "lastIndexOf"; "length"; "map"; "pop"; "push"; "reduce"; "reduceRight";
   "reverse"; "shift"; "slice"; "some"; "sort"; "splice"; "toLocaleString";
   "toReversed"; "toSorted"; "toSpliced"; "toString"; "unshift"; "values";
   "with"].

(** The prototype of a dictionary: [Object.prototype], as for [{}] and for
    every object literal, or an array, which is what the assignment
    [obj["__proto__"] = arr] makes it. *)
Inductive Prototype (A : Type) :=
| ObjectPrototype
| ArrayInstance (arr : list A).
Arguments ObjectPrototype {A}.
Arguments ArrayInstance {A} arr.

Record Dict (A : Type) := {
  own : gmap string (list A);
  proto : Prototype A
}.
Arguments own {A} d.
Arguments proto {A} d.

(** What [obj[k]] is, as far as [obj[k] || []] and a spread [...(v)] tell: a
    falsy value, an array, or a truthy value that is not iterable (a function,
    an object, a non-zero number). *)
Inductive Property (A : Type) :=
| Falsy
| AnArray (arr : list A)
| NotIterable.
Arguments Falsy {A}.
Arguments AnArray {A} arr.
Arguments NotIterable {A}.

(** [{}] *)
Definition empty_object {A} : Dict A :=
  {| own := ∅; proto := ObjectPrototype |}.

(** [obj[k]]: an own property first, then the prototype chain.  Through
    [Object.prototype] the inherited names are functions, and ["__proto__"]
    reads the prototype itself.  Through an array, ["__proto__"] reads that
    array, ["length"] its length, an index one of its elements, and the names
    of [Array.prototype] and [Object.prototype] are functions. *)
Definition get {A} (obj : Dict A) (k : string) : Property A :=
  match own obj !! k with
  | Some arr => AnArray arr
  | None =>
      match proto obj with
      | ObjectPrototype =>
          if bool_decide (k ∈ Object_prototype_names) then NotIterable
          else Falsy
      | ArrayInstance arr =>
          if String.eqb k "__proto__" then AnArray arr
          else if String.eqb k "length" then
            match arr with [] => Falsy | _ :: _ => NotIterable end
          else if bool_decide (k ∈ (pretty <$> seq 0 (length arr))) then NotIterable
          else if bool_decide (k ∈ Array_prototype_names)
                  || bool_decide (k ∈ Object_prototype_names) then NotIterable
          else Falsy
      end
  end.

(** [obj[k] = arr]: an own property is created or overwritten, except that
    ["__proto__"], when it is not an own property, goes to the setter
    inherited from [Object.prototype], which makes [arr] the prototype. *)
Definition assign {A} (k : string) (arr : list A) (obj : Dict A) : Dict A :=
  if String.eqb k "__proto__" && bool_decide (own obj !! k = None)
  then {| own := own obj; proto := ArrayInstance arr |}
  else {| own := <[k := arr]> (own obj); proto := proto obj |}.

(** [{ ...obj, [k]: arr }]: a new plain object with the own properties of
    [obj] and the own property [k]; a computed key never reaches a setter. *)
Definition spread_with {A} (obj : Dict A) (k : string) (arr : list A) : Dict A :=
  {| own := <[k := arr]> (own obj); proto := ObjectPrototype |}.

End Js.

(** ** pages/Dashboard.tsx *)

Module Dashboard.

Import Api.

(** [type MetricState = Metric & { previousValue?: number }]: the object of
    the intersection type is kept as its [Metric] part and the optional
    field. *)
Record MetricState := {
  metric : Metric;
  previousValue : option float
}.

(** A [Metric] stored in a [MetricState[]] slot as it is: the optional field
    is absent. *)
Definition bare (m : Metric) : MetricState :=
  {| metric := m; previousValue := None |}.

(** A piece of React state whose updater can throw: the value it holds, or
    [Crashed] once an updater has thrown while React rendered.  The page has
    no error boundary, so React then unmounts it and the piece is gone for
    good. *)
Inductive Piece (A : Type) :=
| Held (a : A)
| Crashed.
Arguments Held {A} a.
Arguments Crashed {A}.

(** The two pieces of React state the reconciliation works on. *)
Record State := {
  metrics : list MetricState;
  metricsHistory : Piece (Js.Dict MetricChart.MetricDataPoint)
}.

Definition point_of (m : Metric) : MetricChart.MetricDataPoint :=
  {| MetricChart.timestamp := created_at m; MetricChart.value := value m |}.

(** [handleDashboardSelect], the synchronous part: both tables are cleared. *)
Definition reset : State :=
  {| metrics := []; metricsHistory := Held Js.empty_object |}.

(** [handleDashboardSelect], after the snapshot has arrived:
    [initialMetrics.forEach(metric => initialHistory[metric.name] = [...])]
    assigns in array order, a later metric of the same name overwriting an
    earlier one. *)
Definition initialHistory (initialMetrics : list Metric)
  : Js.Dict MetricChart.MetricDataPoint :=
  foldl (fun h m => Js.assign (name m) [point_of m] h)
    Js.empty_object initialMetrics.

Definition seed (initialMetrics : list Metric) : State :=
  {| metrics := bare <$> initialMetrics;
     metricsHistory := Held (initialHistory initialMetrics) |}.

(** The predicate [m => m.name === s] handed to [findIndex]. *)
Definition named (s : string) (m : MetricState) : bool :=
  String.eqb (name (metric m)) s.

(** The updater passed to [setMetrics] in the [metric_update] handler. *)
Definition setMetrics_update (updatedMetric : Metric)
    (prevMetrics : list MetricState) : list MetricState :=
  match Js.findIndex (named (name updatedMetric)) prevMetrics with
  | Some existingIndex =>
      (* [prevMetrics[existingIndex]] is defined: the index comes from
         [findIndex] (lemma [findIndex_Some] below), so the last branch is
         never taken. *)
      match prevMetrics !! existingIndex with
      | Some old =>
          <[existingIndex :=
              {| metric := updatedMetric;
                 previousValue := Some (value (metric old)) |}]> prevMetrics
      | None => prevMetrics
      end
  | None => prevMetrics ++ [bare updatedMetric]
  end.

(** The updater passed to [setMetricsHistory] in the same handler:
    [{ ...prevHistory, [name]: [...(prevHistory[name] || []), point].slice(-100) }].
    The spread of a value that is truthy and not iterable throws a
    [TypeError]. *)
Definition setMetricsHistory_update (updatedMetric : Metric)
    (prevHistory : Js.Dict MetricChart.MetricDataPoint)
  : Piece (Js.Dict MetricChart.MetricDataPoint) :=
  match Js.get prevHistory (name updatedMetric) with
  | Js.Falsy =>
      Held (Js.spread_with prevHistory (name updatedMetric)
              (Js.slice_last 100 ([] ++ [point_of updatedMetric])))
  | Js.AnArray arr =>
      Held (Js.spread_with prevHistory (name updatedMetric)
              (Js.slice_last 100 (arr ++ [point_of updatedMetric])))
  | Js.NotIterable => Crashed
  end.

(** One [metric_update] event: both updaters run, each on its own piece of
    state.  The updater of the entries cannot throw; once the history
    updater has thrown, the page is unmounted and the history stays
    [Crashed] (the entries are then no longer shown; they are kept here as
    the entries updater computes them). *)
Definition applyUpdate (updatedMetric : Metric) (st : State) : State :=
  {| metrics := setMetrics_update updatedMetric (metrics st);
     metricsHistory :=
       match metricsHistory st with
       | Held prevHistory => setMetricsHistory_update updatedMetric prevHistory
       | Crashed => Crashed
       end |}.

Definition applyUpdates (updates : list Metric) (st : State) : State :=
  foldl (fun s u => applyUpdate u s) st updates.

(** What the page holds for a series: the first entry of that name (the
    one [findIndex] selects), and the points [metricsHistory[s] || []] hands
    to the chart, as far as that value is an array of points; a page that
    has crashed has no points to show. *)
Definition series (s : string) (st : State) : option MetricState :=
  Js.findIndex (named s) (metrics st) ≫= fun i => metrics st !! i.

Definition history (s : string) (st : State) : list MetricChart.MetricDataPoint :=
  match metricsHistory st with
  | Held obj =>
      match Js.get obj s with
      | Js.AnArray arr => arr
      | _ => []
      end
  | Crashed => []
  end.

(** A series name that collides with nothing a plain object inherits. *)
Definition ordinary (s : string) : Prop := s ∉ Js.Object_prototype_names.

(** The history table is held, is a plain object (its prototype is
    [Object.prototype]) and has only ordinary names as keys: the table after
    [reset], after a snapshot of ordinary names, and after updates of
    ordinary names on such a table. *)
Definition plain (st : State) : Prop :=
  exists obj,
    metricsHistory st = Held obj
    /\ Js.proto obj = Js.ObjectPrototype
    /\ forall k, is_Some (Js.own obj !! k) -> ordinary k.

(** The points a run of updates contributes to the series [s], in the order
    the updates arrive. *)
Definition points_for (s : string) (updates : list Metric)
  : list MetricChart.MetricDataPoint :=
  point_of <$> filter (fun u => name u = s) updates.

End Dashboard.

(** ** services/websocket.ts *)

Module Websocket.

Inductive ConnectionState := connecting | connected | disconnected | error.

(** [WebSocket.readyState] of the browser's transport object. *)
Inductive ReadyState := CONNECTING | OPEN | CLOSING | CLOSED.

(** What a [try] block can end with. *)
Inductive JsError := SyntaxError | TypeError.

Inductive Completion (A : Type) :=
| Return (a : A)
| Throw (e : JsError).
Arguments Return {A} a.
Arguments Throw {A} e.

Definition try_catch {A} (body : Completion A) (handler : JsError -> Completion A)
  : Completion A :=
  match body with
  | Return a => Return a
  | Throw e => handler e
  end.

Definition MAX_RETRIES : Z := 5.
Definition RETRY_INTERVAL_MS : Z := 1000.

(** A transport object as the manager sees it: the URL it was constructed
    with and its ready state.  Every one of them is constructed by
    [_doConnect], which installs the same four handlers on it. *)
Record Socket := {
  sock_url : string;
  readyState : ReadyState
}.

Section Manager.

(** [data: any] of a message, and the state the registered callback
    works on. *)
Context {any C : Type}.

Record WebSocketMessage := {
  type : string;
  data : any
}.

(** [JSON.parse], read at the type the callback declares for its result. *)
Variable JSON_parse : string -> Completion WebSocketMessage.

(** The registered callback, as a function of the consumer's state: it
    returns with the state it has brought the consumer to, or it throws.
    [Throw] carries no state: a callback that throws is taken to throw
    before it has changed anything of the consumer, and nothing below is
    stated about a callback that changes the consumer's state and then
    throws (the [catch] block of [onmessage] would not undo the change). *)
Definition MessageCallback : Type := WebSocketMessage -> C -> Completion C.

(** The private fields of the [WebSocketManager] instance, together with
    the part of the browser its methods act on: the transport objects
    constructed so far (a handle is an index in creation order), the
    pending [setTimeout] callbacks (each is [() => this._doConnect()],
    kept by its delay), every delay ever passed to [setTimeout], and the
    consumer's state. *)
Record World := {
  ws : option nat;
  url : option string;
  token : option string;
  retries : Z;
  connectionState : ConnectionState;
  onMessageCallback : option MessageCallback;
  sockets : list Socket;
  timers : list Z;
  setTimeout_log : list Z;
  consumer : C
}.

Definition set_ws (v : option nat) (w : World) : World :=
  {| ws := v; url := url w; token := token w; retries := retries w;
     connectionState := connectionState w;
     onMessageCallback := onMessageCallback w; sockets := sockets w;
     timers := timers w; setTimeout_log := setTimeout_log w;
     consumer := consumer w |}.

Definition set_url (v : option string) (w : World) : World :=
  {| ws := ws w; url := v; token := token w; retries := retries w;
     connectionState := connectionState w;
     onMessageCallback := onMessageCallback w; sockets := sockets w;
     timers := timers w; setTimeout_log := setTimeout_log w;
     consumer := consumer w |}.

Definition set_token (v : option string) (w : World) : World :=
  {| ws := ws w; url := url w; token := v; retries := retries w;
     connectionState := connectionState w;
     onMessageCallback := onMessageCallback w; sockets := sockets w;
     timers := timers w; setTimeout_log := setTimeout_log w;
     consumer := consumer w |}.

Definition set_retries (v : Z) (w : World) : World :=
  {| ws := ws w; url := url w; token := token w; retries := v;
     connectionState := connectionState w;
     onMessageCallback := onMessageCallback w; sockets := sockets w;
     timers := timers w; setTimeout_log := setTimeout_log w;
     consumer := consumer w |}.

Definition setState (state : ConnectionState) (w : World) : World :=
  {| ws := ws w; url := url w; token := token w; retries := retries w;
     connectionState := state;
     onMessageCallback := onMessageCallback w; sockets := sockets w;
     timers := timers w; setTimeout_log := setTimeout_log w;
     consumer := consumer w |}.

Definition set_onMessageCallback (v : option MessageCallback) (w : World) : World :=
  {| ws := ws w; url := url w; token := token w; retries := retries w;
     connectionState := connectionState w;
     onMessageCallback := v; sockets := sockets w;
     timers := timers w; setTimeout_log := setTimeout_log w;
     consumer := consumer w |}.

Definition set_sockets (v : list Socket) (w : World) : World :=
  {| ws := ws w; url := url w; token := token w; retries := retries w;
     connectionState := connectionState w;
     onMessageCallback := onMessageCallback w; sockets := v;
     timers := timers w; setTimeout_log := setTimeout_log w;
     consumer := consumer w |}.

Definition set_timers (v : list Z) (w : World) : World :=
  {| ws := ws w; url := url w; token := token w; retries := retries w;
     connectionState := connectionState w;
     onMessageCallback := onMessageCallback w; sockets := sockets w;
     timers := v; setTimeout_log := setTimeout_log w;
     consumer := consumer w |}.

Definition set_consumer (v : C) (w : World) : World :=
  {| ws := ws w; url := url w; token := token w; retries := retries w;
     connectionState := connectionState w;
     onMessageCallback := onMessageCallback w; sockets := sockets w;
     timers := timers w; setTimeout_log := setTimeout_log w;
     consumer := v |}.

(** [setTimeout(() => this._doConnect(), delay)]. *)
Definition setTimeout (delay : Z) (w : World) : World :=
  {| ws := ws w; url := url w; token := token w; retries := retries w;
     connectionState := connectionState w;
     onMessageCallback := onMessageCallback w; sockets := sockets w;
     timers := timers w ++ [delay];
     setTimeout_log := setTimeout_log w ++ [delay];
     consumer := consumer w |}.

(** A freshly constructed manager, in a browser that has constructed no
    transport object and holds no timer of it. *)
Definition fresh (c : C) : World :=
  {| ws := None; url := None; token := None; retries := 0;
     connectionState := disconnected; onMessageCallback := None;
     sockets := []; timers := []; setTimeout_log := [];
     consumer := c |}.

Definition ready_of (h : nat) (w : World) : option ReadyState :=
  readyState <$> sockets w !! h.

(** [this.ws && this.ws.readyState === WebSocket.OPEN]. *)
Definition ws_is_open (w : World) : bool :=
  match ws w with
  | Some h => match ready_of h w with Some OPEN => true | _ => false end
  | None => false
  end.

Definition dashboard_url (dashboardId : Z) : string :=
  "ws://localhost:8000/api/v1/ws/dashboard/" +:+ pretty dashboardId.

Definition full_url (u t : string) : string := u +:+ "?token=" +:+ t.

(** The guard [!this.url || !this.token] is taken when a field is [null] (the
    last branch) or the empty string.  Past it, [this.ws = new
    WebSocket(fullUrl)] and the four handlers are installed. *)
Definition _doConnect (w : World) : World :=
  match url w, token w with
  | Some u, Some t =>
      if negb (Js.truthy (Some u)) || negb (Js.truthy (Some t)) then
        setState error w
      else
        let fullUrl := full_url u t in
        set_ws (Some (length (sockets w)))
          (set_sockets
             (sockets w ++ [{| sock_url := fullUrl; readyState := CONNECTING |}])
             w)
  | _, _ => setState error w
  end.

Definition connect (dashboardId : Z) (tok : string) (w : World) : World :=
  if ws_is_open w then w
  else
    _doConnect
      (setState connecting
         (set_retries 0
            (set_token (Some tok)
               (set_url (Some (dashboard_url dashboardId)) w)))).

(** [ws.onopen] *)
Definition onopen (w : World) : World :=
  set_retries 0 (setState connected w).

(** [ws.onmessage]: the [try] block covers the parse and the callback. *)
Definition onmessage (event_data : string) (w : World) : Completion World :=
  try_catch
    (match JSON_parse event_data with
     | Return message =>
         match onMessageCallback w with
         | Some callback =>
             match callback message (consumer w) with
             | Return c => Return (set_consumer c w)
             | Throw e => Throw e
             end
         | None => Return w
         end
     | Throw e => Throw e
     end)
    (fun _ => Return w).

(** [ws.onclose] *)
Definition onclose (code : Z) (w : World) : World :=
  if negb (code =? 1000) && (retries w <? MAX_RETRIES) then
    let w1 := set_retries (retries w + 1) w in
    let delay := 2 ^ retries w1 * RETRY_INTERVAL_MS in
    setState connecting (setTimeout delay w1)
  else setState disconnected w.

(** [ws.onerror] *)
Definition onerror (w : World) : World := setState error w.

(** [WebSocket.close()] of the browser: a transport that is connecting or
    open starts closing, one that is closing or closed is left alone; the
    close event comes later. *)
Definition close_call (s : Socket) : Socket :=
  match readyState s with
  | CONNECTING | OPEN => {| sock_url := sock_url s; readyState := CLOSING |}
  | CLOSING | CLOSED => s
  end.

Definition disconnect (w : World) : World :=
  setState disconnected
    (match ws w with
     | Some h =>
         set_ws None
           (set_sockets (alter close_call h (sockets w))
              (set_retries MAX_RETRIES w))
     | None => w
     end).

Definition onMessage (callback : MessageCallback) (w : World) : World :=
  set_onMessageCallback (Some callback) w.

Definition getConnectionState (w : World) : ConnectionState :=
  connectionState w.

(** *** The event loop

    What can happen to the manager: a call of one of its public methods,
    an event the browser dispatches on one of the transport objects, the
    browser starting the closing handshake of an open transport, or a
    pending timer that fires.  An event the browser cannot dispatch in the
    current state (an open on a transport that is not connecting, a message
    on one that is not open, anything on a closed one, a timer that is not
    pending) has no successor.

    [SockClosing] is the closing handshake started from the other side: the
    server sent its Close frame or the connection failed, the ready state of
    the open transport becomes CLOSING and no handler of the manager runs;
    the close event is dispatched later. *)
Inductive Event :=
| Connect (dashboardId : Z) (tok : string)
| Disconnect
| OnMessage (callback : MessageCallback)
| SockOpen (h : nat)
| SockMessage (h : nat) (event_data : string)
| SockError (h : nat)
| SockClose (h : nat) (code : Z)
| SockClosing (h : nat)
| Timeout (i : nat).

Definition set_ready (h : nat) (r : ReadyState) (w : World) : World :=
  set_sockets
    (alter (fun s => {| sock_url := sock_url s; readyState := r |}) h (sockets w)) w.

Definition step (ev : Event) (w : World) : option World :=
  match ev with
  | Connect dashboardId tok => Some (connect dashboardId tok w)
  | Disconnect => Some (disconnect w)
  | OnMessage callback => Some (onMessage callback w)
  | SockOpen h =>
      match ready_of h w with
      | Some CONNECTING => Some (onopen (set_ready h OPEN w))
      | _ => None
      end
  | SockMessage h event_data =>
      match ready_of h w with
      | Some OPEN =>
          (* the handler never throws (lemma [onmessage_returns]) *)
          match onmessage event_data w with
          | Return w' => Some w'
          | Throw _ => None
          end
      | _ => None
      end
  | SockError h =>
      match ready_of h w with
      | Some CONNECTING | Some OPEN | Some CLOSING => Some (onerror w)
      | _ => None
      end
  | SockClose h code =>
      match ready_of h w with
      | Some CONNECTING | Some OPEN | Some CLOSING =>
          Some (onclose code (set_ready h CLOSED w))
      | _ => None
      end
  | SockClosing h =>
      match ready_of h w with
      | Some OPEN => Some (set_ready h CLOSING w)
      | _ => None
      end
  | Timeout i =>
      match timers w !! i with
      | Some _ => Some (_doConnect (set_timers (delete i (timers w)) w))
      | None => None
      end
  end.

Fixpoint run (evs : list Event) (w : World) : option World :=
  match evs with
  | [] => Some w
  | ev :: rest =>
      match step ev w with
      | Some w' => run rest w'
      | None => None
      end
  end.

(** *** Vocabulary of the statements below *)

Definition is_connect (ev : Event) : bool :=
  match ev with
  | Connect _ _ => true
  | _ => false
  end.

(** The events that give the retry budget back: a [connect] call and a
    successful open are the two places where [this.retries] is set to 0. *)
Definition rearms (ev : Event) : bool :=
  match ev with
  | Connect _ _ | SockOpen _ => true
  | _ => false
  end.

(** The delays of the retries numbered [k+1], ..., [k+n]. *)
Definition backoff_delays (k n : nat) : list Z :=
  (fun i => RETRY_INTERVAL_MS * 2 ^ Z.of_nat i) <$> seq (S k) n.

(** Closures in a row with no successful open in between: after a closure the
    pending reconnect timer fires, [_doConnect] constructs the transport with
    the next handle, and that transport closes in turn. *)
Fixpoint reconnect_closures (next : nat) (codes : list Z) : list Event :=
  match codes with
  | [] => []
  | code :: rest =>
      Timeout 0 :: SockClose next code :: reconnect_closures (S next) rest
  end.

Definition consecutive_closures (h next : nat) (codes : list Z) : list Event :=
  match codes with
  | [] => []
  | code :: rest => SockClose h code :: reconnect_closures next rest
  end.

(** The manager in a backoff window: scope [u], [t] set, [k] retries counted,
    the reconnect of retry [k] pending. *)
Definition Backoff (u t : string) (k : nat) (w : World) : Prop :=
  url w = Some u /\ token w = Some t /\ u <> EmptyString /\ t <> EmptyString
  /\ retries w = Z.of_nat k
  /\ timers w = [RETRY_INTERVAL_MS * 2 ^ Z.of_nat k]
  /\ connectionState w = connecting.

(** Nothing of the manager is live in the browser: every transport it
    constructed is closed and no timer is pending. *)
Definition quiescent (w : World) : Prop :=
  Forall (fun s => readyState s = CLOSED) (sockets w) /\ timers w = [].

(** The scope is incomplete: [!this.url || !this.token]. *)
Definition scope_missing (w : World) : Prop :=
  Js.truthy (url w) = false \/ Js.truthy (token w) = false.

End Manager.

Arguments WebSocketMessage : clear implicits.
Arguments World : clear implicits.
Arguments Event : clear implicits.
Arguments MessageCallback : clear implicits.

End Websocket.

(** ** pages/Dashboard.tsx: the callback the page registers with the manager *)

Module Page.

Import Api Dashboard Websocket.

(** The function passed to [webSocketManager.onMessage]: a [metric_update]
    message runs the two updaters on its [data], any other message is
    ignored. *)
Definition on_message (message : WebSocketMessage Metric) (st : State)
  : Completion State :=
  if String.eqb (type message) "metric_update"
  then Return (applyUpdate (data message) st)
  else Return st.

End Page.

(** ** Concrete data for the closed examples *)

Module Scenario.

Import Api Dashboard Websocket.

Definition cpu (v : float) (at_ : string) : Metric :=
  {| id := 1; name := "cpu"; value := v; metric_type := gauge;
     dashboard_id := 1; created_at := at_ |}.

Definition mem (v : float) (at_ : string) : Metric :=
  {| id := 2; name := "mem"; value := v; metric_type := gauge;
     dashboard_id := 1; created_at := at_ |}.

(** A metric of any name. *)
Definition sample (n : string) (v : float) (at_ : string) : Metric :=
  {| id := 3; name := n; value := v; metric_type := gauge;
     dashboard_id := 1; created_at := at_ |}.

(** A stand-in for [JSON.parse] in the closed examples: it decodes the one
    frame below and rejects every other text. *)
Definition frame : string := "metric_update cpu 15 T1".

Definition parse (text : string) : Completion (WebSocketMessage Metric) :=
  if String.eqb text frame
  then Return {| type := "metric_update"; data := cpu 15 "T1" |}
  else Throw SyntaxError.

(** The page after the snapshot [cpu = 10] has been seeded and its callback
    registered, before any [connect]. *)
Definition page : World Metric State :=
  onMessage Page.on_message (fresh (seed [cpu 10 "T0"])).

(** The same page once [connect(1, "tok")] has been called and the transport
    has opened. *)
Definition connected_page : World Metric State :=
  onopen (set_ready 0 OPEN (connect 1 "tok" page)).

(** The same page in a backoff window: the first transport closed abnormally
    before it opened and the reconnect is pending. *)
Definition backing_off_page : World Metric State :=
  onclose 1006 (set_ready 0 CLOSED (connect 1 "tok" page)).

Definition tables (r : option (World Metric State)) : option State :=
  consumer <$> r.

End Scenario.

(** ** services/api.ts: the error path of the request functions *)

Module ApiService.

Import Api.

(** One element of a validation [detail]: [{ msg, type, loc }]. *)
Record ValidationError := {
  msg : string;
  type : string;
  loc : list string
}.

(** The two values a property cannot be read from. *)
Inductive Nullish := null | undefined.

(** [errorData.detail] as [handleError] tells it apart: a string, an array
    (whose elements are objects, or nullish when the server sent such), or
    anything else, a missing [detail] included. *)
Inductive Detail :=
| DetailString (s : string)
| DetailArray (ds : list (Nullish + ValidationError))
| DetailOther.

(** [error.response.data], the parsed body of the answer: nullish when the
    answer had no body or the body [null], otherwise a value whose [detail]
    can be read. *)
Inductive Body :=
| BodyNullish (n : Nullish)
| BodyValue (detail : Detail).

(** The parts of an [AxiosError] that [handleError] reads: the body of the
    response when the server answered, whether a request was sent, and the
    error's own message. *)
Record AxiosError := {
  response : option Body;
  request : bool;
  message : string
}.

(** What a promise is rejected with, as far as a [catch] block can tell: a
    string, or an [Error] object with its [message]. *)
Inductive Reason :=
| ReasonString (s : string)
| ReasonError (error_message : string).

Inductive Settled (A : Type) :=
| Fulfilled (a : A)
| Rejected (reason : Reason).
Arguments Fulfilled {A} a.
Arguments Rejected {A} reason.

(** How a call ends: it returns, or it throws an [Error] with a message. *)
Inductive Outcome (A : Type) :=
| Returned (a : A)
| Thrown (error_message : string).
Arguments Returned {A} a.
Arguments Thrown {A} error_message.

(** The message of the [TypeError] of reading property [prop] of a nullish
    value (the wording of V8). *)
Definition cannot_read (n : Nullish) (prop : string) : string :=
  "Cannot read properties of "
  ++ match n with null => "null" | undefined => "undefined" end
  ++ " (reading '" ++ prop ++ "')".

(** [detail.map(d => d.msg)]: the callback runs on the elements in order and
    throws on the first nullish one. *)
Fixpoint msgs (ds : list (Nullish + ValidationError)) : Outcome (list string) :=
  match ds with
  | [] => Returned []
  | inl n :: _ => Thrown (cannot_read n "msg")
  | inr d :: ds =>
      match msgs ds with
      | Returned rest => Returned (msg d :: rest)
      | Thrown m => Thrown m
      end
  end.

(** [handleError] returns a rejected promise, or throws where it reads a
    property of a nullish value. *)
Definition handleError {A} (error : AxiosError) : Outcome (Settled A) :=
  match response error with
  | Some errorData =>
      match errorData with
      | BodyNullish n => Thrown (cannot_read n "detail")
      | BodyValue (DetailString s) => Returned (Rejected (ReasonString s))
      | BodyValue (DetailArray ds) =>
          match msgs ds with
          | Returned ms => Returned (Rejected (ReasonString (String.concat ", " ms)))
          | Thrown m => Thrown m
          end
      | BodyValue DetailOther =>
          Returned (Rejected (ReasonString "An unknown error occurred."))
      end
  | None =>
      if request error
      then Returned (Rejected (ReasonString "Network error. Please check your connection."))
      else Returned (Rejected (ReasonString (message error)))
  end.

(** [getDashboardMetrics], given how [api.get] ended: with the [data] of the
    response, or by throwing an [AxiosError].  It is an [async] function:
    what [handleError] throws inside its [catch] block rejects its
    promise. *)
Definition getDashboardMetrics (outcome : list Metric + AxiosError)
  : Settled (list Metric) :=
  match outcome with
  | inl data => Fulfilled data
  | inr error =>
      match handleError error with
      | Returned promise => promise
      | Thrown m => Rejected (ReasonError m)
      end
  end.

End ApiService.

(** ** pages/Dashboard.tsx: the handlers around the tables *)

Module Handlers.

Import Api Dashboard Websocket.

(** The updater of [handleDeleteMetric]:
    [prev.filter(m => m.id !== metricId)].  The history table is not
    touched. *)
Definition deleteMetric_update (metricId : Z) (prev : list MetricState)
  : list MetricState :=
  filter (fun m => id (metric m) <> metricId) prev.

Definition deleteMetric (metricId : Z) (st : State) : State :=
  {| metrics := deleteMetric_update metricId (metrics st);
     metricsHistory := metricsHistory st |}.

(** The page state [handleDashboardSelect] works on. *)
Record Selection := {
  selectedDashboardId : option Z;
  tables : State;
  metricsError : option string;
  loadingMetrics : bool
}.

(** [err.message] in a [catch (err: any)]: an [Error] has one, a string has
    no such property. *)
Definition message_of (err : ApiService.Reason) : option string :=
  match err with
  | ApiService.ReasonString _ => None
  | ApiService.ReasonError m => Some m
  end.

(** [a || fallback] on strings. *)
Definition or_else (a : option string) (fallback : string) : string :=
  match a with
  | Some s => if Js.truthy (Some s) then s else fallback
  | None => fallback
  end.

(** [handleDashboardSelect] up to its [await]: nothing for the dashboard that
    is already selected ([None]: the handler returns and never reaches the
    request); otherwise the selection is recorded, the tables and the error
    are cleared and loading starts. *)
Definition select_begin (dashboardId : Z) (p : Selection) : option Selection :=
  if decide (selectedDashboardId p = Some dashboardId) then None
  else
    Some {| selectedDashboardId := Some dashboardId;
            tables := reset;
            metricsError := None;
            loadingMetrics := true |}.

(** [handleDashboardSelect] from the [await] on, given how
    [getDashboardMetrics] settled: the [try] branch seeds the tables, the
    [catch] branch records the message, [finally] ends loading. *)
Definition select_settle (settled : ApiService.Settled (list Metric))
    (p : Selection) : Selection :=
  match settled with
  | ApiService.Fulfilled initialMetrics =>
      {| selectedDashboardId := selectedDashboardId p;
         tables := seed initialMetrics;
         metricsError := metricsError p;
         loadingMetrics := false |}
  | ApiService.Rejected err =>
      {| selectedDashboardId := selectedDashboardId p;
         tables := tables p;
         metricsError := Some (or_else (message_of err) "Failed to fetch metrics");
         loadingMetrics := false |}
  end.

(** Truthiness of [selectedDashboardId: number | null]. *)
Definition truthy_id (dashboardId : option Z) : bool :=
  match dashboardId with
  | Some n => negb (n =? 0)
  | None => false
  end.

(** The effect on [[selectedDashboardId, token]]: what its body does to the
    manager, and what the cleanup it returns does.  When the guard fails the
    body does nothing and returns no cleanup. *)
Definition effect (dashboardId : option Z) (token : option string)
  : list (Event Metric State) :=
  match dashboardId, token with
  | Some n, Some tok =>
      if truthy_id (Some n) && Js.truthy (Some tok)
      then [Connect n tok; OnMessage Page.on_message]
      else []
  | _, _ => []
  end.

Definition cleanup (dashboardId : option Z) (token : option string)
  : list (Event Metric State) :=
  if truthy_id dashboardId && Js.truthy token then [Disconnect] else [].

(** The names in the table, in table order. *)
Definition names (st : State) : list string :=
  (fun m => name (metric m)) <$> metrics st.

(** The last point of every series shown is the point of the metric shown. *)
Definition synced (st : State) : Prop :=
  forall s e, series s st = Some e ->
    last (history s st) = Some (point_of (metric e)).

End Handlers.

(** ** Invariants of the manager *)

Module Invariants.

Import Websocket.

Section Invariants.

Context {any C : Type}.
Implicit Types (w : World any C).

(** The retry counter is within the budget and every delay scheduled so far
    is one of the five of the budget. *)
Definition budget_kept w : Prop :=
  0 <= retries w <= MAX_RETRIES
  /\ Forall (fun delay => delay ∈ backoff_delays 0 5) (setTimeout_log w).

(** The transport held in [this.ws] is the one constructed last. *)
Definition holds_latest w : Prop :=
  forall h, ws w = Some h -> S h = length (sockets w).

(** [connected] is backed by a transport that is open, or that has started
    closing and whose close event is still to come. *)
Definition connected_means_open w : Prop :=
  connectionState w = connected ->
  exists h, ready_of h w = Some OPEN \/ ready_of h w = Some CLOSING.

End Invariants.

End Invariants.

(** * Properties

    ** Array helpers *)

Section JsFacts.

Context {A : Type}.
Implicit Types (l k : list A) (p : A -> bool).

Lemma slice_last_length n l : length (Js.slice_last n l) = (length l `min` n)%nat.
Proof. unfold Js.slice_last. rewrite length_drop. lia. Qed.

Lemma slice_last_short n l : (length l <= n)%nat -> Js.slice_last n l = l.
Proof.
  intros Hle. unfold Js.slice_last.
  replace (length l - n)%nat with 0%nat by lia. done.
Qed.

Lemma slice_last_app_inner n l k :
  Js.slice_last n (Js.slice_last n l ++ k) = Js.slice_last n (l ++ k).
Proof.
  destruct (decide (length l <= n)%nat) as [Hle|Hgt].
  - by rewrite (slice_last_short n l Hle).
  - unfold Js.slice_last at 1 3.
    rewrite !length_app, slice_last_length.
    unfold Js.slice_last.
    rewrite <- (drop_app_le l k (length l - n)) by lia.
    rewrite drop_drop. f_equal. lia.
Qed.

Lemma findIndex_Some p l i :
  Js.findIndex p l = Some i ->
  exists x, l !! i = Some x /\ p x = true /\
    forall j y, (j < i)%nat -> l !! j = Some y -> p y = false.
Proof.
  revert i; induction l as [|a l IH]; intros i; simpl; [done|].
  destruct (p a) eqn:Hpa.
  - intros [= <-]. exists a. split_and!; [done..|]. intros; lia.
  - destruct (Js.findIndex p l) as [i'|] eqn:Hf; simpl; [|done].
    intros [= <-]. destruct (IH i' eq_refl) as (x & Hx & Hpx & Hlt).
    exists x. split_and!; [done..|].
    intros [|j] y Hj; simpl; [by intros [= <-]|].
    apply Hlt. lia.
Qed.

Lemma findIndex_None p l :
  Js.findIndex p l = None <-> Forall (fun x => p x = false) l.
Proof.
  induction l as [|a l IH]; simpl; [by split; [constructor|]|].
  destruct (p a) eqn:Hpa.
  - split; [done|]. intros HF. apply Forall_cons in HF as [Hf _]. congruence.
  - destruct (Js.findIndex p l); simpl.
    + split; [done|]. intros HF. apply Forall_cons in HF as [_ HF]. by apply IH in HF.
    + split; [|done]. intros _. constructor; [done|]. by apply IH.
Qed.

Lemma findIndex_first p l i x :
  l !! i = Some x -> p x = true ->
  (forall j y, (j < i)%nat -> l !! j = Some y -> p y = false) ->
  Js.findIndex p l = Some i.
Proof.
  revert i; induction l as [|a l IH]; intros [|i]; simpl; try done.
  - by intros [= ->] ->.
  - intros Hx Hpx Hlt.
    rewrite (Hlt 0%nat a) by (done || lia). 
    rewrite (IH i); [done..|].
    intros j y Hj Hy. apply (Hlt (S j) y); [lia|done].
Qed.

Lemma findIndex_snoc_false p l x :
  p x = false -> Js.findIndex p (l ++ [x]) = Js.findIndex p l.
Proof.
  intros Hx. induction l as [|a l IH]; simpl; [by rewrite Hx|].
  by rewrite IH.
Qed.

Lemma findIndex_insert_false p l i x old :
  l !! i = Some old -> p old = false -> p x = false ->
  Js.findIndex p (<[i := x]> l) = Js.findIndex p l.
Proof.
  intros Hold Hpold Hx. revert i Hold.
  induction l as [|a l IH]; intros [|i]; simpl; try done.
  - intros [= ->]. by rewrite Hx, Hpold.
  - intros Hold. by rewrite (IH i Hold).
Qed.

End JsFacts.

(** ** The reconciliation of [Dashboard.tsx] *)

Module DashboardFacts.

Import Api Dashboard.

(** *** The history table *)

Lemma points_for_snoc s updates u :
  points_for s (updates ++ [u]) =
  points_for s updates ++ (if decide (name u = s) then [point_of u] else []).
Proof.
  unfold points_for. rewrite filter_app, fmap_app. f_equal.
  rewrite filter_cons, filter_nil. by case_decide.
Qed.

Lemma applyUpdates_snoc updates u st :
  applyUpdates (updates ++ [u]) st = applyUpdate u (applyUpdates updates st).
Proof. unfold applyUpdates. by rewrite foldl_app. Qed.

(** Reads of a plain object with ordinary keys only. *)
Lemma get_plain (obj : Js.Dict MetricChart.MetricDataPoint) s :
  Js.proto obj = Js.ObjectPrototype ->
  (forall k, is_Some (Js.own obj !! k) -> ordinary k) ->
  match Js.get obj s with Js.AnArray arr => arr | _ => [] end
  = default [] (Js.own obj !! s).
Proof.
  intros Hproto Hkeys. unfold Js.get.
  destruct (Js.own obj !! s); [done|]. rewrite Hproto. by case_bool_decide.
Qed.

Lemma get_ordinary (obj : Js.Dict MetricChart.MetricDataPoint) s :
  Js.proto obj = Js.ObjectPrototype -> ordinary s ->
  Js.get obj s =
  match Js.own obj !! s with Some arr => Js.AnArray arr | None => Js.Falsy end.
Proof.
  intros Hproto Hs. unfold Js.get.
  destruct (Js.own obj !! s); [done|]. rewrite Hproto.
  by rewrite bool_decide_eq_false_2.
Qed.

Lemma history_plain st obj s :
  metricsHistory st = Held obj ->
  Js.proto obj = Js.ObjectPrototype ->
  (forall k, is_Some (Js.own obj !! k) -> ordinary k) ->
  history s st = default [] (Js.own obj !! s).
Proof. intros Hst Hproto Hkeys. unfold history. rewrite Hst. by apply get_plain. Qed.

Lemma applyUpdate_held u st obj :
  metricsHistory st = Held obj ->
  Js.proto obj = Js.ObjectPrototype -> ordinary (name u) ->
  metricsHistory (applyUpdate u st) =
  Held (Js.spread_with obj (name u)
          (Js.slice_last 100
             (default [] (Js.own obj !! name u) ++ [point_of u]))).
Proof.
  intros Hst Hproto Hu. unfold applyUpdate, setMetricsHistory_update; simpl.
  rewrite Hst, get_ordinary by done. by destruct (Js.own obj !! name u).
Qed.

Lemma plain_applyUpdate u st :
  plain st -> ordinary (name u) -> plain (applyUpdate u st).
Proof.
  intros (obj & Hst & Hproto & Hkeys) Hu.
  eexists. split; [by apply applyUpdate_held|]. split; [done|].
  intros k; simpl. destruct (decide (k = name u)) as [->|Hne]; [done|].
  rewrite lookup_insert_ne by done. apply Hkeys.
Qed.

Lemma plain_applyUpdates updates st :
  plain st -> Forall ordinary (name <$> updates) ->
  plain (applyUpdates updates st).
Proof.
  intros Hst. induction updates as [|u updates IH] using rev_ind; [done|].
  rewrite fmap_app, Forall_app, applyUpdates_snoc. intros [Hall Hu].
  apply plain_applyUpdate; [by apply IH|]. by apply Forall_inv in Hu.
Qed.

Lemma initialHistory_snoc (ms : list Metric) m :
  initialHistory (ms ++ [m]) = Js.assign (name m) [point_of m] (initialHistory ms).
Proof. unfold initialHistory. by rewrite foldl_app. Qed.

Lemma ordinary_not_proto s : ordinary s -> String.eqb s "__proto__" = false.
Proof.
  intros Hs. apply String.eqb_neq. intros ->. apply Hs.
  unfold Js.Object_prototype_names. set_solver.
Qed.

Lemma ordinary_decide (s : string) :
  bool_decide (s ∉ Js.Object_prototype_names) = true -> ordinary s.
Proof. apply bool_decide_eq_true_1. Qed.

Lemma ordinary_names_decide (ms : list Metric) :
  forallb (fun m => bool_decide (name m ∉ Js.Object_prototype_names)) ms = true ->
  Forall ordinary (name <$> ms).
Proof.
  induction ms as [|m ms IH]; simpl; [constructor|].
  intros [Hm Hms]%andb_true_iff. constructor; [by apply ordinary_decide|by apply IH].
Qed.

Lemma plain_seed (initialMetrics : list Metric) :
  Forall ordinary (name <$> initialMetrics) -> plain (seed initialMetrics).
Proof.
  intros Hall. exists (initialHistory initialMetrics). split; [done|].
  induction initialMetrics as [|m ms IH] using rev_ind.
  - split; [done|]. intros k [x Hx].
    change ((∅ : gmap string (list MetricChart.MetricDataPoint)) !! k = Some x)
      in Hx.
    by rewrite lookup_empty in Hx.
  - rewrite fmap_app, Forall_app in Hall. destruct Hall as [Hall Hm].
    apply Forall_inv in Hm. destruct (IH Hall) as [Hproto Hkeys].
    rewrite initialHistory_snoc. unfold Js.assign.
    rewrite (ordinary_not_proto _ Hm); simpl. split; [done|].
    intros k. destruct (decide (k = name m)) as [->|Hne]; [done|].
    rewrite lookup_insert_ne by done. apply Hkeys.
Qed.

Lemma history_applyUpdate_eq u st :
  plain st -> ordinary (name u) ->
  history (name u) (applyUpdate u st) =
  Js.slice_last 100 (history (name u) st ++ [point_of u]).
Proof.
  intros (obj & Hst & Hproto & Hkeys) Hu.
  rewrite (history_plain st obj) by done.
  unfold history. rewrite (applyUpdate_held u st obj) by done.
  unfold Js.get; simpl. by rewrite lookup_insert_eq.
Qed.

Lemma history_applyUpdate_ne u st s :
  plain st -> ordinary (name u) -> s <> name u ->
  history s (applyUpdate u st) = history s st.
Proof.
  intros Hst Hu Hne.
  destruct (plain_applyUpdate u st Hst Hu) as (obj' & Hst' & Hproto' & Hkeys').
  destruct Hst as (obj & Hst & Hproto & Hkeys).
  rewrite (history_plain _ obj') by done.
  rewrite (history_plain _ obj) by done.
  rewrite (applyUpdate_held u st obj) in Hst' by done.
  injection Hst' as <-. simpl. by rewrite lookup_insert_ne.
Qed.

Lemma history_applyUpdates st updates s :
  plain st -> Forall ordinary (name <$> updates) ->
  (length (history s st) <= 100)%nat ->
  history s (applyUpdates updates st) =
  Js.slice_last 100 (history s st ++ points_for s updates).
Proof.
  intros Hst Hall Hlen. induction updates as [|u updates IH] using rev_ind.
  - unfold points_for; simpl. rewrite app_nil_r.
    by rewrite slice_last_short.
  - rewrite fmap_app, Forall_app in Hall. destruct Hall as [Hall Hu].
    apply Forall_inv in Hu.
    pose proof (plain_applyUpdates updates st Hst Hall) as Hplain.
    rewrite applyUpdates_snoc, points_for_snoc.
    destruct (decide (name u = s)) as [<-|Hne].
    + rewrite history_applyUpdate_eq, IH, slice_last_app_inner by done.
      by rewrite <- app_assoc.
    + rewrite app_nil_r, <- IH by done.
      by apply history_applyUpdate_ne.
Qed.

Lemma history_seed_single (m : Metric) :
  history (name m) (seed [m]) = [point_of m].
Proof.
  unfold history, seed; simpl.
  change (initialHistory [m])
    with (Js.assign (name m) [point_of m] Js.empty_object).
  unfold Js.assign, Js.get.
  destruct (String.eqb (name m) "__proto__") eqn:Hp; simpl.
  - rewrite bool_decide_eq_true_2 by apply lookup_empty. simpl.
    by rewrite lookup_empty.
  - by rewrite lookup_insert_eq.
Qed.

(** C1, where the code departs from it.  An update whose name is one every
    object inherits from [Object.prototype] ("constructor", "toString",
    "__proto__", ...), arriving while the history table is a plain object
    without that key, is not retained: [prevHistory[name] || []] reads the
    inherited value, the spread of it throws, and the history is lost with
    the page.  The seed shows what the update misses: a snapshot holding the
    same metric stores its point. *)
Theorem update_of_inherited_name_throws (u : Metric) (st : State)
    (obj : Js.Dict MetricChart.MetricDataPoint) :
  metricsHistory st = Held obj ->
  Js.proto obj = Js.ObjectPrototype ->
  Js.own obj !! name u = None ->
  name u ∈ Js.Object_prototype_names ->
  metricsHistory (applyUpdate u st) = Crashed
  /\ history (name u) (applyUpdate u st) = []
  /\ history (name u) (seed [u]) = [point_of u].
Proof.
  intros Hst Hproto Hown Hin.
  assert (metricsHistory (applyUpdate u st) = Crashed) as Hcrash.
  { unfold applyUpdate, setMetricsHistory_update, Js.get; simpl.
    by rewrite Hst, Hown, Hproto, bool_decide_eq_true_2. }
  split_and!; [done|by unfold history; rewrite Hcrash|].
  apply history_seed_single.
Qed.

(** C10, where the code departs from it.  The spread in the history updater
    copies own properties only.  A snapshot metric named "__proto__" has its
    point stored through the prototype of the table, so the page reads it
    back; the first update of any other series builds a new table without it,
    and the history of the "__proto__" series is gone although the update
    was not for it. *)
Theorem update_drops_history_kept_in_prototype (m u : Metric) :
  name m = "__proto__" -> ordinary (name u) ->
  name u <> name m
  /\ history (name m) (seed [m]) = [point_of m]
  /\ history (name m) (applyUpdate u (seed [m])) = [].
Proof.
  intros Hm Hu. pose proof (ordinary_not_proto _ Hu) as Hne.
  split_and!.
  - rewrite Hm. by apply String.eqb_neq.
  - apply history_seed_single.
  - assert (name u <> "__proto__") as Hnp by (by apply String.eqb_neq).
    assert (Js.own (initialHistory [m]) = ∅) as Hown.
    { change (initialHistory [m])
        with (Js.assign (name m) [point_of m] Js.empty_object).
      unfold Js.assign. rewrite Hm; simpl.
      by rewrite bool_decide_eq_true_2 by apply lookup_empty. }
    unfold history, applyUpdate, setMetricsHistory_update; simpl.
    destruct (Js.get (initialHistory [m]) (name u)) as [|arr|]; [| |done];
      unfold Js.get, Js.spread_with; simpl;
      rewrite Hown, Hm, lookup_insert_ne by done; by rewrite lookup_empty.
Qed.

(** *** The current-value table *)

Lemma series_found s st i :
  Js.findIndex (named s) (metrics st) = Some i -> series s st = metrics st !! i.
Proof. unfold series. by intros ->. Qed.

Lemma setMetrics_update_found u ms i old :
  Js.findIndex (named (name u)) ms = Some i -> ms !! i = Some old ->
  setMetrics_update u ms =
  <[i := {| metric := u; previousValue := Some (value (metric old)) |}]> ms.
Proof. unfold setMetrics_update. by intros -> ->. Qed.

Lemma setMetrics_update_unseen u ms :
  Js.findIndex (named (name u)) ms = None ->
  setMetrics_update u ms = ms ++ [bare u].
Proof. unfold setMetrics_update. by intros ->. Qed.

Lemma named_refl u pv : named (name u) {| metric := u; previousValue := pv |} = true.
Proof. unfold named; simpl. by apply String.eqb_eq. Qed.

(** An update leaves the entry of the updated name with the new metric and
    with the value the series had before as its previous value. *)
Lemma series_applyUpdate_eq u st :
  series (name u) (applyUpdate u st) =
  Some {| metric := u;
          previousValue := (fun e => value (metric e)) <$> series (name u) st |}.
Proof.
  destruct (Js.findIndex (named (name u)) (metrics st)) as [i|] eqn:Hf.
  - destruct (findIndex_Some _ _ _ Hf) as (old & Hold & _ & Hfirst).
    rewrite (series_found _ _ _ Hf), Hold; simpl.
    assert (Js.findIndex (named (name u)) (metrics (applyUpdate u st)) = Some i)
      as Hf'.
    { simpl. rewrite (setMetrics_update_found _ _ _ _ Hf Hold).
      eapply findIndex_first.
      - apply list_lookup_insert_eq. by eapply lookup_lt_Some.
      - apply named_refl.
      - intros j y Hj. rewrite list_lookup_insert_ne by lia. by apply Hfirst. }
    rewrite (series_found _ _ _ Hf'); simpl.
    rewrite (setMetrics_update_found _ _ _ _ Hf Hold).
    apply list_lookup_insert_eq. by eapply lookup_lt_Some.
  - assert (series (name u) st = None) as -> by (unfold series; by rewrite Hf).
    simpl.
    assert (Js.findIndex (named (name u)) (metrics (applyUpdate u st))
            = Some (length (metrics st))) as Hf'.
    { simpl. rewrite (setMetrics_update_unseen _ _ Hf).
      eapply findIndex_first.
      - by apply list_lookup_middle.
      - apply named_refl.
      - intros j y Hj. rewrite lookup_app_l by done. intros Hy.
        apply findIndex_None in Hf.
        eapply (proj1 (Forall_lookup _ _) Hf); eauto. }
    rewrite (series_found _ _ _ Hf'); simpl.
    rewrite (setMetrics_update_unseen _ _ Hf).
    by apply list_lookup_middle.
Qed.

(** Entries of another name stay where they are. *)
Lemma metrics_applyUpdate_other u st i e :
  metrics st !! i = Some e -> name (metric e) <> name u ->
  metrics (applyUpdate u st) !! i = Some e.
Proof.
  intros He Hne; simpl.
  destruct (Js.findIndex (named (name u)) (metrics st)) as [k|] eqn:Hf.
  - destruct (findIndex_Some _ _ _ Hf) as (old & Hold & Hp & _).
    rewrite (setMetrics_update_found _ _ _ _ Hf Hold).
    rewrite list_lookup_insert_ne; [done|].
    intros ->. rewrite Hold in He. injection He as <-.
    apply String.eqb_eq in Hp. done.
  - rewrite (setMetrics_update_unseen _ _ Hf).
    rewrite lookup_app_l; [done|]. by eapply lookup_lt_Some.
Qed.

Lemma named_other s e : name (metric e) <> s -> named s e = false.
Proof. intros Hne. unfold named. by apply String.eqb_neq. Qed.

(** An update for another name does not change what a series shows. *)
Lemma series_applyUpdate_ne u st s :
  s <> name u -> series s (applyUpdate u st) = series s st.
Proof.
  intros Hne. unfold series. simpl.
  destruct (Js.findIndex (named (name u)) (metrics st)) as [k|] eqn:Hf.
  - destruct (findIndex_Some _ _ _ Hf) as (old & Hold & Hp & _).
    apply String.eqb_eq in Hp.
    rewrite (setMetrics_update_found _ _ _ _ Hf Hold).
    rewrite (findIndex_insert_false _ _ _ _ old Hold);
      [|apply named_other; congruence|apply named_other; simpl; congruence].
    destruct (Js.findIndex (named s) (metrics st)) as [j|] eqn:Hj; simpl; [|done].
    apply list_lookup_insert_ne. intros ->.
    destruct (findIndex_Some _ _ _ Hj) as (x & Hx & Hpx & _).
    rewrite Hold in Hx. injection Hx as <-.
    apply String.eqb_eq in Hpx. congruence.
  - rewrite (setMetrics_update_unseen _ _ Hf).
    rewrite findIndex_snoc_false by (apply named_other; simpl; congruence).
    destruct (Js.findIndex (named s) (metrics st)) as [j|] eqn:Hj; simpl; [|done].
    destruct (findIndex_Some _ _ _ Hj) as (x & Hx & _).
    apply lookup_app_l. by eapply lookup_lt_Some.
Qed.




(** X19.  After a snapshot and updates of ordinary names, an update of an
    ordinary name [name u] leaves the rest of the tables alone and does not
    crash the page: every entry of another name stays at its index,
    unchanged; what the page shows for another series (entry and history) is
    the same as before; an update for a name that is not in the table appends
    its entry at the end; an update for a name that is keeps the length of
    the table. *)
Theorem applyUpdate_frame_ordinary (initialMetrics updates : list Metric)
    (u : Metric) :
  Forall ordinary (name <$> initialMetrics) ->
  Forall ordinary (name <$> updates) ->
  ordinary (name u) ->
  let st := applyUpdates updates (seed initialMetrics) in
  let st' := applyUpdate u st in
  (exists obj, metricsHistory st' = Held obj)
  /\ (forall i e, metrics st !! i = Some e -> name (metric e) <> name u ->
                 metrics st' !! i = Some e)
  /\ (forall s, s <> name u ->
        series s st' = series s st /\ history s st' = history s st)
  /\ (series (name u) st = None -> metrics st' = metrics st ++ [bare u])
  /\ (is_Some (series (name u) st) -> length (metrics st') = length (metrics st)).
Proof.
  intros Hseed Hupdates Hu. cbv zeta.
  pose proof (plain_applyUpdates updates _ (plain_seed _ Hseed) Hupdates)
    as Hplain.
  set (st := applyUpdates updates (seed initialMetrics)) in *.
  split_and!.
  - destruct (plain_applyUpdate u st Hplain Hu) as (obj & Hobj & _).
    by exists obj.
  - apply metrics_applyUpdate_other.
  - intros s Hne. split.
    + by apply series_applyUpdate_ne.
    + by apply history_applyUpdate_ne.
  - intros Hnone. apply setMetrics_update_unseen.
    destruct (Js.findIndex (named (name u)) (metrics st)) as [i|] eqn:Hf; [|done].
    destruct (findIndex_Some _ _ _ Hf) as (x & Hx & _).
    rewrite (series_found _ _ _ Hf), Hx in Hnone. done.
  - intros [e He].
    destruct (Js.findIndex (named (name u)) (metrics st)) as [i|] eqn:Hf.
    + destruct (findIndex_Some _ _ _ Hf) as (x & Hx & _).
      change (metrics (applyUpdate u st)) with (setMetrics_update u (metrics st)).
      rewrite (setMetrics_update_found _ _ _ _ Hf Hx). apply length_insert.
    + unfold series in He. by rewrite Hf in He.
Qed.

(** *** Closed instances on the data of [Scenario] *)


Lemma update_of_inherited_name_throws_witness :
  let u := Scenario.sample "constructor" 1 "T1" in
  let st := seed [Scenario.cpu 10 "T0"] in
  history "cpu" st = [point_of (Scenario.cpu 10 "T0")]
  /\ metricsHistory (applyUpdate u st) = Crashed
  /\ history "constructor" (seed [u]) = [point_of u].
Proof.
  cbv zeta. split; [reflexivity|].
  destruct (update_of_inherited_name_throws
              (Scenario.sample "constructor" 1 "T1")
              (seed [Scenario.cpu 10 "T0"])
              (initialHistory [Scenario.cpu 10 "T0"])
              eq_refl eq_refl eq_refl ltac:(left))
    as (Hcrash & _ & Hseed).
  split; [exact Hcrash|exact Hseed].
Defined.

Lemma update_drops_history_kept_in_prototype_witness :
  let m := Scenario.sample "__proto__" 7 "T0" in
  history "__proto__" (seed [m]) = [point_of m]
  /\ history "__proto__" (applyUpdate (Scenario.cpu 15 "T1") (seed [m])) = [].
Proof.
  cbv zeta.
  destruct (update_drops_history_kept_in_prototype
              (Scenario.sample "__proto__" 7 "T0") (Scenario.cpu 15 "T1")
              eq_refl (ordinary_decide "cpu" eq_refl))
    as (_ & Hseed & Hgone).
  split; [exact Hseed|exact Hgone].
Defined.

Lemma applyUpdate_frame_ordinary_witness :
  let st :=
    applyUpdates [Scenario.cpu 15 "T1"]
      (seed [Scenario.cpu 10 "T0"; Scenario.mem 42 "T0"]) in
  let st' := applyUpdate (Scenario.mem 43 "T2") st in
  series "cpu" st' = series "cpu" st /\ history "cpu" st' = history "cpu" st.
Proof.
  cbv zeta.
  destruct (applyUpdate_frame_ordinary
              [Scenario.cpu 10 "T0"; Scenario.mem 42 "T0"]
              [Scenario.cpu 15 "T1"] (Scenario.mem 43 "T2")
              (ordinary_names_decide
                 [Scenario.cpu 10 "T0"; Scenario.mem 42 "T0"] eq_refl)
              (ordinary_names_decide [Scenario.cpu 15 "T1"] eq_refl)
              (ordinary_decide "mem" eq_refl))
    as (_ & _ & Hframe & _).
  exact (Hframe "cpu" ltac:(discriminate)).
Defined.

(** The two scenarios of the specification. *)
Example seeded_series_then_update :
  let st := applyUpdate (Scenario.cpu 15 "T1") (seed [Scenario.cpu 10 "T0"]) in
  series "cpu" st =
    Some {| metric := Scenario.cpu 15 "T1"; previousValue := Some 10%float |}
  /\ history "cpu" st =
       [{| MetricChart.timestamp := "T0"; MetricChart.value := 10 |};
        {| MetricChart.timestamp := "T1"; MetricChart.value := 15 |}].
Proof. vm_compute. by split. Qed.

Example unseen_series_update :
  let st := applyUpdate (Scenario.mem 42 "T0") reset in
  series "mem" st =
    Some {| metric := Scenario.mem 42 "T0"; previousValue := None |}
  /\ history "mem" st =
       [{| MetricChart.timestamp := "T0"; MetricChart.value := 42 |}].
Proof. vm_compute. by split. Qed.

(** One seeded point and 120 updates: 100 points are kept, the oldest of them
    the 21st update. *)
Example eviction_after_120_updates :
  let updates := (fun k : nat => Scenario.cpu 1 (pretty k)) <$> seq 1 120 in
  let h := history "cpu" (applyUpdates updates (seed [Scenario.cpu 10 "T0"])) in
  length h = 100%nat
  /\ MetricChart.timestamp <$> head h = Some "21"
  /\ MetricChart.timestamp <$> last h = Some "120".
Proof. vm_compute. by split_and!. Qed.

End DashboardFacts.

(** ** The connection manager of [websocket.ts] *)

Module WebsocketFacts.

Import Websocket.

Section Facts.

Context {any C : Type}.
Variable JSON_parse : string -> Completion (WebSocketMessage any).
Implicit Types (w : World any C) (h : nat) (code : Z).

Lemma truthy_Some (t : string) : Js.truthy (Some t) = true <-> t <> EmptyString.
Proof.
  simpl. destruct (String.eqb_spec t EmptyString); simpl; split; congruence.
Qed.

Lemma dashboard_url_truthy (dashboardId : Z) :
  dashboard_url dashboardId <> EmptyString.
Proof. unfold dashboard_url. simpl. discriminate. Qed.

Lemma run_app (evs1 evs2 : list (Event any C)) w :
  run JSON_parse (evs1 ++ evs2) w =
  match run JSON_parse evs1 w with
  | Some w' => run JSON_parse evs2 w'
  | None => None
  end.
Proof.
  revert w; induction evs1 as [|ev evs1 IH]; intros w; simpl; [done|].
  destruct (step JSON_parse ev w); [apply IH|done].
Qed.

(** *** [_doConnect] *)

Lemma _doConnect_opens w u t :
  url w = Some u -> token w = Some t -> u <> EmptyString -> t <> EmptyString ->
  _doConnect w =
  set_ws (Some (length (sockets w)))
    (set_sockets
       (sockets w ++ [{| sock_url := full_url u t; readyState := CONNECTING |}]) w).
Proof.
  intros Hu Ht Hue Hte. unfold _doConnect. rewrite Hu, Ht.
  apply truthy_Some in Hue, Hte. by rewrite Hue, Hte.
Qed.

Lemma _doConnect_missing w : scope_missing w -> _doConnect w = setState error w.
Proof.
  unfold scope_missing, _doConnect.
  destruct (url w) as [u|], (token w) as [t|]; try done.
  intros [-> | ->]; [done|]. by rewrite orb_true_r.
Qed.

(** *** [ws.onclose] *)

Lemma onclose_normal w : onclose 1000 w = setState disconnected w.
Proof. done. Qed.

Lemma onclose_retry w code :
  code <> 1000 -> retries w < MAX_RETRIES ->
  onclose code w =
  setState connecting
    (setTimeout (2 ^ (retries w + 1) * RETRY_INTERVAL_MS)
       (set_retries (retries w + 1) w)).
Proof.
  intros Hcode Hlt. unfold onclose.
  apply Z.eqb_neq in Hcode. apply Z.ltb_lt in Hlt. by rewrite Hcode, Hlt.
Qed.

Lemma onclose_exhausted w code :
  MAX_RETRIES <= retries w -> onclose code w = setState disconnected w.
Proof.
  intros Hge. unfold onclose.
  apply Z.ltb_ge in Hge. by rewrite Hge, andb_false_r.
Qed.

Lemma step_close w h code r :
  ready_of h w = Some r -> r <> CLOSED ->
  step JSON_parse (SockClose h code) w = Some (onclose code (set_ready h CLOSED w)).
Proof. intros Hr Hne; simpl. rewrite Hr. by destruct r. Qed.

Lemma step_timeout w i (delay : Z) :
  timers w !! i = Some delay ->
  step JSON_parse (Timeout i) w
  = Some (_doConnect (set_timers (delete i (timers w)) w)).
Proof. intros Hd; simpl. by rewrite Hd. Qed.

(** C5.  Whatever the retry counter, a close event with code 1000 on a live
    transport leaves the manager [disconnected] and schedules nothing: the
    pending timers and the log of scheduled delays are as before and no
    transport is constructed.  A close event with any other code, while the
    counter is below [MAX_RETRIES], takes the retry path: the counter goes up
    by one, a reconnect is scheduled after [RETRY_INTERVAL_MS * 2 ^ retries]
    and the manager is [connecting]. *)
Theorem normal_closure_never_retries w h code r :
  ready_of h w = Some r -> r <> CLOSED ->
  (code = 1000 ->
   exists w', step JSON_parse (SockClose h code) w = Some w'
     /\ connectionState w' = disconnected
     /\ timers w' = timers w
     /\ setTimeout_log w' = setTimeout_log w
     /\ length (sockets w') = length (sockets w)
     /\ retries w' = retries w)
  /\ (code <> 1000 -> retries w < MAX_RETRIES ->
      exists w', step JSON_parse (SockClose h code) w = Some w'
        /\ connectionState w' = connecting
        /\ retries w' = retries w + 1
        /\ timers w' = timers w ++ [RETRY_INTERVAL_MS * 2 ^ retries w']
        /\ setTimeout_log w' =
             setTimeout_log w ++ [RETRY_INTERVAL_MS * 2 ^ retries w']
        /\ length (sockets w') = length (sockets w)).
Proof.
  intros Hr Hne. rewrite (step_close _ _ _ _ Hr Hne). split.
  - intros ->. eexists. split; [done|]. rewrite onclose_normal; simpl.
    split_and!; try done. apply length_alter.
  - intros Hcode Hlt. eexists. split; [done|].
    rewrite onclose_retry by done; simpl.
    rewrite (Z.mul_comm (2 ^ _)). split_and!; try done. apply length_alter.
Qed.

(** *** Retries in a row *)

(** One turn of the retry loop: the pending timer fires, [_doConnect]
    constructs a transport, and that transport closes abnormally. *)
Lemma backoff_turn w u t k code :
  Backoff u t k w -> code <> 1000 -> (k < 5)%nat ->
  exists w',
    run JSON_parse [Timeout 0; SockClose (length (sockets w)) code] w = Some w'
    /\ Backoff u t (S k) w'
    /\ setTimeout_log w' =
         setTimeout_log w ++ [RETRY_INTERVAL_MS * 2 ^ Z.of_nat (S k)]
    /\ length (sockets w') = S (length (sockets w)).
Proof.
  intros (Hu & Ht & Hue & Hte & Hk & Htm & Hst) Hcode Hlt.
  cbn [run]. rewrite (step_timeout w 0 (RETRY_INTERVAL_MS * 2 ^ Z.of_nat k))
    by (by rewrite Htm).
  rewrite (_doConnect_opens _ u t) by done.
  cbn [sockets set_timers].
  set (w1 := set_ws _ _).
  assert (ready_of (length (sockets w)) w1 = Some CONNECTING) as Hr.
  { unfold ready_of, w1; simpl. by rewrite list_lookup_middle. }
  rewrite (step_close _ _ _ _ Hr) by done.
  rewrite onclose_retry; [|done|].
  2:{ simpl. rewrite Hk. unfold MAX_RETRIES. lia. }
  eexists. split; [done|]. simpl.
  replace (retries w + 1) with (Z.of_nat (S k)) by lia.
  rewrite (Z.mul_comm (2 ^ _)).
  split_and!.
  - unfold Backoff; simpl. rewrite Htm; simpl. by split_and!.
  - done.
  - rewrite length_alter, length_app; simpl. lia.
Qed.

(** The turn that finds the budget spent. *)
Lemma backoff_gives_up w u t code :
  Backoff u t 5 w ->
  exists w',
    run JSON_parse [Timeout 0; SockClose (length (sockets w)) code] w = Some w'
    /\ connectionState w' = disconnected
    /\ timers w' = []
    /\ retries w' = 5
    /\ setTimeout_log w' = setTimeout_log w.
Proof.
  intros (Hu & Ht & Hue & Hte & Hk & Htm & Hst).
  cbn [run]. rewrite (step_timeout w 0 (RETRY_INTERVAL_MS * 2 ^ Z.of_nat 5))
    by (by rewrite Htm).
  rewrite (_doConnect_opens _ u t) by done.
  cbn [sockets set_timers].
  set (w1 := set_ws _ _).
  assert (ready_of (length (sockets w)) w1 = Some CONNECTING) as Hr.
  { unfold ready_of, w1; simpl. by rewrite list_lookup_middle. }
  rewrite (step_close _ _ _ _ Hr) by done.
  rewrite onclose_exhausted.
  2:{ simpl. rewrite Hk. unfold MAX_RETRIES. lia. }
  eexists. split; [done|]. simpl. rewrite Htm, Hk. by split_and!.
Qed.

Lemma reconnect_closures_app next (codes1 codes2 : list Z) :
  @reconnect_closures any C next (codes1 ++ codes2) =
  reconnect_closures next codes1
    ++ reconnect_closures (next + length codes1) codes2.
Proof.
  revert next; induction codes1 as [|c codes1 IH]; intros next; simpl.
  - by rewrite Nat.add_0_r.
  - rewrite IH.
    by replace (S next + length codes1)%nat
      with (next + S (length codes1))%nat by lia.
Qed.

Lemma backoff_delays_S k n :
  backoff_delays k (S n) =
  RETRY_INTERVAL_MS * 2 ^ Z.of_nat (S k) :: backoff_delays (S k) n.
Proof. done. Qed.

Lemma backoff_turns codes : forall w u t k,
  Backoff u t k w -> Forall (fun c => c <> 1000) codes ->
  (k + length codes <= 5)%nat ->
  exists w',
    run JSON_parse (reconnect_closures (length (sockets w)) codes) w = Some w'
    /\ Backoff u t (k + length codes) w'
    /\ setTimeout_log w' = setTimeout_log w ++ backoff_delays k (length codes)
    /\ length (sockets w') = (length (sockets w) + length codes)%nat.
Proof.
  induction codes as [|c codes IH]; intros w u t k Hb Hall Hle.
  - exists w. simpl. rewrite !Nat.add_0_r, app_nil_r. done.
  - apply Forall_cons in Hall as [Hc Hall]. cbn [length] in *.
    destruct (backoff_turn w u t k c Hb Hc ltac:(lia))
      as (w1 & Hrun & Hb1 & Hlog1 & Hlen1).
    destruct (IH w1 u t (S k) Hb1 Hall ltac:(lia))
      as (w' & Hrun' & Hb' & Hlog' & Hlen').
    exists w'.
    change (reconnect_closures (length (sockets w)) (c :: codes))
      with ([Timeout 0; SockClose (length (sockets w)) c]
              ++ @reconnect_closures any C (S (length (sockets w))) codes).
    rewrite run_app, Hrun, <- Hlen1, Hrun'.
    replace (k + S (length codes))%nat with (S k + length codes)%nat by lia.
    split_and!; [done|done| |lia].
    by rewrite Hlog', Hlog1, <- app_assoc, backoff_delays_S.
Qed.

Lemma first_closure w h u t code :
  url w = Some u -> token w = Some t -> u <> EmptyString -> t <> EmptyString ->
  ready_of h w = Some OPEN -> retries w = 0 -> timers w = [] -> code <> 1000 ->
  exists w1,
    step JSON_parse (SockClose h code) w = Some w1
    /\ Backoff u t 1 w1
    /\ setTimeout_log w1 = setTimeout_log w ++ backoff_delays 0 1
    /\ length (sockets w1) = length (sockets w).
Proof.
  intros Hu Ht Hue Hte Hr Hk Htm Hcode.
  rewrite (step_close _ _ _ _ Hr) by done.
  rewrite onclose_retry; [|done|simpl; rewrite Hk; unfold MAX_RETRIES; lia].
  eexists. split; [done|]. unfold Backoff; simpl. rewrite Hk, Htm; simpl.
  split_and!; try done. apply length_alter.
Qed.

(** C2, as the code has it.  From a manager whose transport [h] is open, with
    the retry counter at zero and no reconnect pending, closures with a code
    other than 1000 that follow one another without a successful open: after
    each of the first five the manager is [connecting], has counted one more
    retry and has one reconnect pending, scheduled after
    [RETRY_INTERVAL_MS * 2 ^ retries], so the delays are base * 2^1, ...,
    base * 2^5; the sixth leaves it [disconnected] with nothing pending and
    those five delays the only ones scheduled. *)
Theorem retry_budget_is_five_reconnects w h u t (codes : list Z) :
  url w = Some u -> token w = Some t -> u <> EmptyString -> t <> EmptyString ->
  ready_of h w = Some OPEN -> retries w = 0 -> timers w = [] ->
  Forall (fun c => c <> 1000) codes ->
  let trace := consecutive_closures h (length (sockets w)) codes in
  ((1 <= length codes <= 5)%nat ->
   exists w', run JSON_parse trace w = Some w'
     /\ connectionState w' = connecting
     /\ retries w' = Z.of_nat (length codes)
     /\ timers w' = [RETRY_INTERVAL_MS * 2 ^ retries w']
     /\ setTimeout_log w' =
          setTimeout_log w ++ backoff_delays 0 (length codes))
  /\ (length codes = 6%nat ->
      exists w', run JSON_parse trace w = Some w'
        /\ connectionState w' = disconnected
        /\ timers w' = []
        /\ setTimeout_log w' =
             setTimeout_log w ++ [2000; 4000; 8000; 16000; 32000]).
Proof.
  intros Hu Ht Hue Hte Hr Hk Htm Hall trace.
  destruct codes as [|c rest]; [split; simpl; lia|].
  apply Forall_cons in Hall as [Hc Hall].
  destruct (first_closure w h u t c Hu Ht Hue Hte Hr Hk Htm Hc)
    as (w1 & Hstep & Hb1 & Hlog1 & Hlen1).
  subst trace. cbn [consecutive_closures run length]. rewrite Hstep, <- Hlen1.
  split.
  - intros Hlen.
    destruct (backoff_turns rest w1 u t 1 Hb1 Hall ltac:(lia))
      as (w' & Hrun & (_ & _ & _ & _ & Hk' & Htm' & Hst') & Hlog' & _).
    exists w'. rewrite Hk', Hlog', Hlog1, <- app_assoc.
    by split_and!.
  - intros Hlen.
    destruct rest as [|c2 [|c3 [|c4 [|c5 [|c6 [|]]]]]]; try (simpl in Hlen; lia).
    apply (Forall_app _ [c2; c3; c4; c5] [c6]) in Hall as [Hmid _].
    destruct (backoff_turns [c2; c3; c4; c5] w1 u t 1 Hb1 Hmid ltac:(simpl; lia))
      as (w5 & Hrun & Hb5 & Hlog5 & Hlen5).
    destruct (backoff_gives_up w5 u t c6 Hb5)
      as (w' & Hrun' & Hst' & Htm' & _ & Hlog').
    exists w'.
    change [c2; c3; c4; c5; c6] with ([c2; c3; c4; c5] ++ [c6]).
    rewrite reconnect_closures_app, run_app, Hrun, <- Hlen5.
    split_and!; [done..|].
    by rewrite Hlog', Hlog5, Hlog1, <- app_assoc.
Qed.

(** *** [connect] *)

Lemma connect_opens w dashboardId tok :
  ws_is_open w = false -> tok <> EmptyString ->
  connect dashboardId tok w =
  set_ws (Some (length (sockets w)))
    (set_sockets
       (sockets w ++
          [{| sock_url := full_url (dashboard_url dashboardId) tok;
              readyState := CONNECTING |}])
       (setState connecting
          (set_retries 0
             (set_token (Some tok)
                (set_url (Some (dashboard_url dashboardId)) w))))).
Proof.
  intros Hopen Htok. unfold connect. rewrite Hopen.
  by rewrite (_doConnect_opens _ (dashboard_url dashboardId) tok)
    by (done || apply dashboard_url_truthy).
Qed.

Lemma connect_without_token w dashboardId :
  ws_is_open w = false ->
  connect dashboardId EmptyString w =
  setState error
    (set_retries 0
       (set_token (Some EmptyString)
          (set_url (Some (dashboard_url dashboardId)) w))).
Proof.
  intros Hopen. unfold connect. rewrite Hopen.
  rewrite _doConnect_missing; [done|]. by right.
Qed.

Lemma connect_new_handle w dashboardId tok :
  ws_is_open w = false -> tok <> EmptyString ->
  let w' := connect dashboardId tok w in
  url w' = Some (dashboard_url dashboardId)
  /\ token w' = Some tok
  /\ retries w' = 0
  /\ connectionState w' = connecting
  /\ ws w' = Some (length (sockets w))
  /\ sockets w' =
       sockets w ++
         [{| sock_url := full_url (dashboard_url dashboardId) tok;
             readyState := CONNECTING |}]
  /\ timers w' = timers w
  /\ ws_is_open w' = false.
Proof.
  intros Hopen Htok. cbv zeta. rewrite connect_opens by done. simpl.
  split_and!; try done.
  unfold ws_is_open, ready_of; simpl. by rewrite list_lookup_middle.
Qed.

(** C3, as the code has it.  [connect] returns at once exactly when the
    manager holds a transport whose ready state is OPEN, whatever scope that
    transport was opened for and whatever scope is asked for.  Otherwise, with
    a non-empty credential, it records the URL of the requested dashboard and
    the credential, resets the retry counter to zero, sets [connecting] and
    constructs one new transport for that scope, which becomes the held one;
    the transports constructed before are left as they are and no timer is
    touched. *)
Theorem connect_skips_only_on_open_handle w dashboardId tok :
  (ws_is_open w = true -> connect dashboardId tok w = w)
  /\ (ws_is_open w = false -> tok <> EmptyString ->
      let w' := connect dashboardId tok w in
      url w' = Some (dashboard_url dashboardId)
      /\ token w' = Some tok
      /\ retries w' = 0
      /\ connectionState w' = connecting
      /\ ws w' = Some (length (sockets w))
      /\ sockets w' =
           sockets w ++
             [{| sock_url := full_url (dashboard_url dashboardId) tok;
                 readyState := CONNECTING |}]
      /\ timers w' = timers w
      /\ ws_is_open w' = false).
Proof.
  split.
  - intros Hopen. unfold connect. by rewrite Hopen.
  - intros Hopen Htok. by apply connect_new_handle.
Qed.

(** *** Two [connect] calls in a row *)

Lemma step_open w h :
  ready_of h w = Some CONNECTING ->
  step JSON_parse (SockOpen h) w = Some (onopen (set_ready h OPEN w)).
Proof. intros Hr; simpl. by rewrite Hr. Qed.

Lemma step_message w h event_data :
  ready_of h w = Some OPEN ->
  step JSON_parse (SockMessage h event_data) w =
  match onmessage JSON_parse event_data w with
  | Return w' => Some w'
  | Throw _ => None
  end.
Proof. intros Hr; simpl. by rewrite Hr. Qed.

Lemma onmessage_delivers w event_data message callback c :
  JSON_parse event_data = Return message ->
  onMessageCallback w = Some callback ->
  callback message (consumer w) = Return c ->
  onmessage JSON_parse event_data w = Return (set_consumer c w).
Proof. intros Hp Hcb Hc. unfold onmessage. by rewrite Hp, Hcb, Hc. Qed.

(** C7, as the code has it.  Two [connect] calls in a row, neither finding an
    open transport: the second makes its own transport the held one and its
    scope the one later reconnects use, and leaves the transport of the first
    call connecting, with the manager's handlers on it.  So the first
    transport can open, which sets [connected]; the second can open next, and
    then both are open at once; and a message that parses, arriving on the
    first transport, is handed to the registered callback. *)
Theorem second_connect_leaves_first_handle_live
    w id1 tok1 id2 tok2 :
  ws_is_open w = false -> tok1 <> EmptyString -> tok2 <> EmptyString ->
  let h1 := length (sockets w) in
  let h2 := S h1 in
  let w2 := connect id2 tok2 (connect id1 tok1 w) in
  ws w2 = Some h2
  /\ url w2 = Some (dashboard_url id2)
  /\ token w2 = Some tok2
  /\ sockets w2 =
       sockets w ++
         [{| sock_url := full_url (dashboard_url id1) tok1;
             readyState := CONNECTING |};
          {| sock_url := full_url (dashboard_url id2) tok2;
             readyState := CONNECTING |}]
  /\ exists w3 w4,
       step JSON_parse (SockOpen h1) w2 = Some w3
       /\ connectionState w3 = connected
       /\ step JSON_parse (SockOpen h2) w3 = Some w4
       /\ ready_of h1 w4 = Some OPEN
       /\ ready_of h2 w4 = Some OPEN
       /\ forall event_data message callback c,
            JSON_parse event_data = Return message ->
            onMessageCallback w4 = Some callback ->
            callback message (consumer w4) = Return c ->
            step JSON_parse (SockMessage h1 event_data) w4
            = Some (set_consumer c w4).
Proof.
  intros Hopen Htok1 Htok2. cbv zeta.
  destruct (connect_new_handle w id1 tok1 Hopen Htok1)
    as (_ & _ & _ & _ & Hws1 & Hs1 & _ & Hopen1).
  set (w1 := connect id1 tok1 w) in *.
  destruct (connect_new_handle w1 id2 tok2 Hopen1 Htok2)
    as (Hu2 & Ht2 & _ & _ & Hws2 & Hs2 & _ & _).
  set (w2 := connect id2 tok2 w1) in *.
  assert (length (sockets w1) = S (length (sockets w))) as Hlen1.
  { rewrite Hs1, length_app; simpl. lia. }
  rewrite Hs1, <- app_assoc in Hs2; simpl in Hs2.
  rewrite Hlen1 in Hws2.
  split_and!; try done.
  assert (ready_of (length (sockets w)) w2 = Some CONNECTING) as Hr1.
  { unfold ready_of. rewrite Hs2. by rewrite list_lookup_middle. }
  pose (w3 := onopen (set_ready (length (sockets w)) OPEN w2)).
  assert (sockets w3 =
          sockets w ++
            [{| sock_url := full_url (dashboard_url id1) tok1; readyState := OPEN |};
             {| sock_url := full_url (dashboard_url id2) tok2;
                readyState := CONNECTING |}]) as Hs3.
  { unfold w3; simpl. rewrite Hs2.
    by rewrite alter_app_r_alt, Nat.sub_diag by lia. }
  assert (step JSON_parse (SockOpen (length (sockets w))) w2 = Some w3) as Hstep3
    by apply (step_open _ _ Hr1).
  assert (connectionState w3 = connected) as Hst3 by done.
  clearbody w3.
  assert (ready_of (S (length (sockets w))) w3 = Some CONNECTING) as Hr2.
  { unfold ready_of. rewrite Hs3.
    rewrite lookup_app_r by lia.
    by replace (S (length (sockets w)) - length (sockets w))%nat with 1%nat by lia. }
  pose (w4 := onopen (set_ready (S (length (sockets w))) OPEN w3)).
  assert (sockets w4 =
          sockets w ++
            [{| sock_url := full_url (dashboard_url id1) tok1; readyState := OPEN |};
             {| sock_url := full_url (dashboard_url id2) tok2;
                readyState := OPEN |}]) as Hs4.
  { unfold w4; simpl. rewrite Hs3.
    rewrite alter_app_r_alt by lia.
    by replace (S (length (sockets w)) - length (sockets w))%nat with 1%nat by lia. }
  assert (ready_of (length (sockets w)) w4 = Some OPEN) as Hr41.
  { unfold ready_of. rewrite Hs4. by rewrite list_lookup_middle. }
  exists w3, w4. rewrite Hstep3, (step_open _ _ Hr2).
  split_and!; try done.
  - unfold ready_of. rewrite Hs4, lookup_app_r by lia.
    by replace (S (length (sockets w)) - length (sockets w))%nat with 1%nat by lia.
  - intros event_data message callback c Hp Hcb Hc.
    rewrite (step_message _ _ _ Hr41).
    by rewrite (onmessage_delivers _ _ _ _ _ Hp Hcb Hc).
Qed.

(** *** An incomplete scope *)

Lemma onmessage_returns w event_data :
  exists w', onmessage JSON_parse event_data w = Return w'
    /\ (w' = w \/ exists c, w' = set_consumer c w).
Proof.
  unfold onmessage.
  destruct (JSON_parse event_data) as [message|e]; simpl; [|by eauto].
  destruct (onMessageCallback w) as [callback|]; simpl; [|by eauto].
  destruct (callback message (consumer w)) as [c|e]; simpl; by eauto.
Qed.

Lemma step_without_scope (ev : Event any C) w w' :
  is_connect ev = false -> scope_missing w ->
  step JSON_parse ev w = Some w' ->
  scope_missing w' /\ length (sockets w') = length (sockets w).
Proof.
  intros Hev Hmiss.
  destruct ev as [dashboardId tok| |callback|h|h event_data|h|h code|h|i];
    simpl in *; try done.
  - intros [= <-]. unfold disconnect.
    destruct (ws w); simpl; [|done]. split; [done|apply length_alter].
  - by intros [= <-].
  - destruct (ready_of h w) as [[]|]; try done.
    intros [= <-]; simpl. split; [done|apply length_alter].
  - destruct (ready_of h w) as [[]|]; try done.
    destruct (onmessage_returns w event_data) as (w1 & -> & [->|[c ->]]);
      by intros [= <-].
  - destruct (ready_of h w) as [[]|]; try done; by intros [= <-].
  - assert (forall w0, scope_missing w0 ->
              scope_missing (onclose code w0)
              /\ length (sockets (onclose code w0)) = length (sockets w0)) as Hclose.
    { intros w0 Hw0. unfold onclose. by destruct (_ && _). }
    destruct (ready_of h w) as [[]|]; try done; intros [= <-];
      (destruct (Hclose (set_ready h CLOSED w)) as [? ->]; [done|];
       split; [done|apply length_alter]).
  - destruct (ready_of h w) as [[]|]; try done.
    intros [= <-]; simpl. split; [done|apply length_alter].
  - destruct (timers w !! i); [|done]. intros [= <-].
    by rewrite _doConnect_missing.
Qed.

(** With every transport closed and no timer pending, the browser has
    nothing to dispatch: only calls of the public methods can follow. *)
Lemma alter_close_call_closed (l : list Socket) h :
  Forall (fun s => readyState s = CLOSED) l -> alter close_call h l = l.
Proof.
  intros Hall. revert h; induction Hall as [|s l Hs Hall IH]; intros [|h];
    simpl; try done.
  - unfold close_call. by rewrite Hs.
  - f_equal. apply IH.
Qed.

Lemma ready_of_closed w h r :
  quiescent w -> ready_of h w = Some r -> r = CLOSED.
Proof.
  intros [Hall _]. unfold ready_of.
  destruct (sockets w !! h) as [s|] eqn:Hs; simpl; [|done].
  intros [= <-]. by eapply (proj1 (Forall_lookup _ _) Hall).
Qed.

Lemma step_quiescent (ev : Event any C) w w' :
  is_connect ev = false -> quiescent w ->
  step JSON_parse ev w = Some w' ->
  quiescent w' /\ sockets w' = sockets w
  /\ setTimeout_log w' = setTimeout_log w.
Proof.
  intros Hev Hq.
  destruct ev as [dashboardId tok| |callback|h|h event_data|h|h code|h|i];
    simpl in *; try done.
  - intros [= <-]. destruct Hq as [Hall Htm]. unfold disconnect, quiescent.
    destruct (ws w); simpl; [|done].
    by rewrite alter_close_call_closed.
  - by intros [= <-].
  - destruct (ready_of h w) as [r|] eqn:Hr; [|done].
    by rewrite (ready_of_closed _ _ _ Hq Hr).
  - destruct (ready_of h w) as [r|] eqn:Hr; [|done].
    by rewrite (ready_of_closed _ _ _ Hq Hr).
  - destruct (ready_of h w) as [r|] eqn:Hr; [|done].
    by rewrite (ready_of_closed _ _ _ Hq Hr).
  - destruct (ready_of h w) as [r|] eqn:Hr; [|done].
    by rewrite (ready_of_closed _ _ _ Hq Hr).
  - destruct (ready_of h w) as [r|] eqn:Hr; [|done].
    by rewrite (ready_of_closed _ _ _ Hq Hr).
  - destruct Hq as [_ ->]. by rewrite lookup_nil.
Qed.

Lemma run_quiescent (evs : list (Event any C)) : forall w w',
  Forall (fun ev => is_connect ev = false) evs -> quiescent w ->
  run JSON_parse evs w = Some w' ->
  quiescent w' /\ sockets w' = sockets w
  /\ setTimeout_log w' = setTimeout_log w.
Proof.
  induction evs as [|ev evs IH]; intros w w' Hall Hq; simpl.
  - by intros [= <-].
  - apply Forall_cons in Hall as [Hev Hall].
    destruct (step JSON_parse ev w) as [w1|] eqn:Hstep; [|done].
    destruct (step_quiescent ev w w1 Hev Hq Hstep) as (Hq1 & <- & <-).
    by apply IH.
Qed.

Lemma run_without_scope (evs : list (Event any C)) : forall w w',
  Forall (fun ev => is_connect ev = false) evs -> scope_missing w ->
  run JSON_parse evs w = Some w' ->
  scope_missing w' /\ length (sockets w') = length (sockets w).
Proof.
  induction evs as [|ev evs IH]; intros w w' Hall Hmiss; simpl.
  - by intros [= <-].
  - apply Forall_cons in Hall as [Hev Hall].
    destruct (step JSON_parse ev w) as [w1|] eqn:Hstep; [|done].
    destruct (step_without_scope ev w w1 Hev Hmiss Hstep) as [Hmiss1 <-].
    by apply IH.
Qed.

(** C8, as the code has it.  A connect attempt made while the URL or the
    credential is missing ([null] or empty) sets [error] and does nothing
    else: it constructs no transport and schedules no timer.  Through the
    public [connect] this is the call with an empty credential made while no
    open transport is held; the resource id never makes the attempt fail
    (the URL built from it is never empty), and a [connect] that finds an
    open transport is ignored, whatever it was given.
    While the scope stays incomplete no sequence of events without a
    [connect] call constructs a transport, whatever timers fire; and when no
    earlier transport is still live and no timer is pending, no timer is ever
    scheduled either.  An earlier transport that is still live is not
    stopped by the failed attempt: when it opens the manager reports
    [connected], and when it closes abnormally the manager schedules a
    reconnect and reports [connecting].  A [connect] with a non-empty
    credential constructs a transport again. *)
Theorem incomplete_scope_never_opens w :
  (scope_missing w ->
   _doConnect w = setState error w
   /\ (forall (evs : list (Event any C)) w',
         Forall (fun ev => is_connect ev = false) evs ->
         run JSON_parse evs w = Some w' ->
         length (sockets w') = length (sockets w) /\ scope_missing w')
   /\ (forall (evs : list (Event any C)) w',
         quiescent w ->
         Forall (fun ev => is_connect ev = false) evs ->
         run JSON_parse evs w = Some w' ->
         timers w' = [] /\ setTimeout_log w' = setTimeout_log w
         /\ sockets w' = sockets w))
  /\ (forall dashboardId,
        ws_is_open w = false ->
        let w' := connect dashboardId EmptyString w in
        connectionState w' = error
        /\ sockets w' = sockets w
        /\ timers w' = timers w
        /\ setTimeout_log w' = setTimeout_log w
        /\ scope_missing w')
  /\ (forall dashboardId tok,
        ws_is_open w = false -> tok <> EmptyString ->
        let w' := connect dashboardId tok w in
        connectionState w' = connecting
        /\ length (sockets w') = S (length (sockets w)))
  /\ (forall dashboardId tok,
        ws_is_open w = true -> connect dashboardId tok w = w)
  /\ (forall dashboardId h,
        ws_is_open w = false -> ready_of h w = Some CONNECTING ->
        exists w',
          run JSON_parse [Connect dashboardId EmptyString; SockOpen h] w = Some w'
          /\ connectionState w' = connected)
  /\ (forall dashboardId h r code,
        ws_is_open w = false -> ready_of h w = Some r -> r <> CLOSED ->
        code <> 1000 ->
        exists w',
          run JSON_parse [Connect dashboardId EmptyString; SockClose h code] w
          = Some w'
          /\ connectionState w' = connecting
          /\ timers w' = timers w ++ [2000]
          /\ sockets w' = sockets (set_ready h CLOSED w)).
Proof.
  split_and!.
  - intros Hmiss. split_and!.
    + by apply _doConnect_missing.
    + intros evs w' Hall Hrun.
      by destruct (run_without_scope evs w w' Hall Hmiss Hrun).
    + intros evs w' Hq Hall Hrun.
      by destruct (run_quiescent evs w w' Hall Hq Hrun) as ([_ ?] & ? & ?).
  - intros dashboardId Hopen. cbv zeta. rewrite connect_without_token by done.
    simpl. split_and!; try done. by right.
  - intros dashboardId tok Hopen Htok. cbv zeta.
    rewrite connect_opens by done. simpl. split; [done|].
    rewrite length_app; simpl. lia.
  - intros dashboardId tok Hopen. unfold connect. by rewrite Hopen.
  - intros dashboardId h Hopen Hr.
    change (run JSON_parse [Connect dashboardId EmptyString; SockOpen h] w)
      with (run JSON_parse [SockOpen h] (connect dashboardId EmptyString w)).
    rewrite connect_without_token by done. cbn [run].
    rewrite step_open by done. by eexists.
  - intros dashboardId h r code Hopen Hr Hne Hcode.
    change (run JSON_parse [Connect dashboardId EmptyString; SockClose h code] w)
      with (run JSON_parse [SockClose h code] (connect dashboardId EmptyString w)).
    rewrite connect_without_token by done. cbn [run].
    rewrite (step_close _ _ _ r) by done.
    rewrite onclose_retry; [|done|simpl; unfold MAX_RETRIES; lia].
    by eexists.
Qed.

(** *** Inbound messages *)

(** C9.  A message whose payload does not parse changes nothing: the handler
    returns normally with the world it was given, so the callback has not
    run on the consumer's state, the connection state is as before, and the
    event loop goes on from the same world. *)
Theorem malformed_payload_is_dropped w event_data e :
  JSON_parse event_data = Throw e ->
  onmessage JSON_parse event_data w = Return w
  /\ (forall h, ready_of h w = Some OPEN ->
        step JSON_parse (SockMessage h event_data) w = Some w)
  /\ (forall callback,
        onmessage JSON_parse event_data (onMessage callback w)
        = Return (onMessage callback w)).
Proof.
  intros Hp. split_and!.
  - unfold onmessage. by rewrite Hp.
  - intros h Hr. rewrite (step_message _ _ _ Hr). unfold onmessage. by rewrite Hp.
  - intros callback. unfold onmessage. by rewrite Hp.
Qed.

(** *** [disconnect] *)

Lemma disconnect_timers w : timers (disconnect w) = timers w.
Proof. unfold disconnect. by destruct (ws w). Qed.

(** C6, where the code departs from it.  [disconnect] always ends in
    [disconnected], but it leaves a pending reconnect timer in place: when
    that timer fires, [_doConnect] constructs a new transport for the
    recorded scope, and once it opens the manager is [connected] again with
    the retry counter back at zero, without any [connect] call. *)
Theorem pending_reconnect_survives_disconnect w u t (delay : Z) (rest : list Z) :
  url w = Some u -> token w = Some t -> u <> EmptyString -> t <> EmptyString ->
  timers w = delay :: rest ->
  let w1 := disconnect w in
  let h := length (sockets w) in
  connectionState w1 = disconnected
  /\ ws_is_open w1 = false
  /\ timers w1 = delay :: rest
  /\ exists w2 w3,
       step JSON_parse (Timeout 0) w1 = Some w2
       /\ ws w2 = Some h
       /\ ready_of h w2 = Some CONNECTING
       /\ step JSON_parse (SockOpen h) w2 = Some w3
       /\ connectionState w3 = connected
       /\ retries w3 = 0
       /\ ws_is_open w3 = true.
Proof.
  intros Hu Ht Hue Hte Htm. cbv zeta.
  assert (url (disconnect w) = Some u) as Hu1
    by (unfold disconnect; by destruct (ws w)).
  assert (token (disconnect w) = Some t) as Ht1
    by (unfold disconnect; by destruct (ws w)).
  assert (length (sockets (disconnect w)) = length (sockets w)) as Hlen.
  { unfold disconnect. destruct (ws w); simpl; [apply length_alter|done]. }
  pose proof (disconnect_timers w) as Htm1. rewrite Htm in Htm1.
  split_and!; [done| |done|].
  { unfold disconnect, ws_is_open. destruct (ws w) eqn:Hws; simpl; [done|].
    by rewrite Hws. }
  set (w1 := disconnect w) in *.
  pose (w2 := _doConnect (set_timers (delete 0%nat (timers w1)) w1)).
  assert (step JSON_parse (Timeout 0) w1 = Some w2) as Hstep2.
  { apply (step_timeout _ _ delay). by rewrite Htm1. }
  assert (sockets w2 = sockets w1 ++
            [{| sock_url := full_url u t; readyState := CONNECTING |}]
          /\ ws w2 = Some (length (sockets w1))) as [Hs2 Hws2].
  { unfold w2. by rewrite (_doConnect_opens _ u t). }
  clearbody w2. rewrite Hlen in Hws2.
  assert (ready_of (length (sockets w)) w2 = Some CONNECTING) as Hr2.
  { unfold ready_of. rewrite Hs2, <- Hlen. by rewrite list_lookup_middle. }
  exists w2, (onopen (set_ready (length (sockets w)) OPEN w2)).
  rewrite Hstep2, (step_open _ _ Hr2). split_and!; try done.
  unfold ws_is_open, ready_of; simpl. rewrite Hws2, Hs2, <- Hlen.
  by rewrite list_lookup_alter_eq, list_lookup_middle.
Qed.

End Facts.

(** *** Closed instances on the page of [Scenario] *)

Import Api Dashboard.

Lemma normal_closure_never_retries_witness :
  exists w',
    step Scenario.parse (SockClose 0 1000) Scenario.connected_page = Some w'
    /\ connectionState w' = disconnected
    /\ timers w' = []
    /\ setTimeout_log w' = [].
Proof.
  destruct (normal_closure_never_retries Scenario.parse
              Scenario.connected_page 0 1000 OPEN eq_refl ltac:(discriminate))
    as [Hnormal _].
  destruct (Hnormal eq_refl) as (w' & Hstep & Hst & Htm & Hlog & _).
  exists w'. split_and!; [exact Hstep|exact Hst|exact Htm|exact Hlog].
Defined.

(** Five closures in a row after an open: the fifth leaves the manager
    [connecting] with the fifth reconnect pending. *)
Lemma fifth_closure_keeps_retrying :
  let r :=
    run Scenario.parse
      (Connect 1 "tok" :: SockOpen 0
         :: consecutive_closures 0 1 [1006; 1006; 1006; 1006; 1006])
      Scenario.page in
  connectionState <$> r = Some connecting
  /\ retries <$> r = Some 5
  /\ timers <$> r = Some [32000]
  /\ setTimeout_log <$> r = Some [2000; 4000; 8000; 16000; 32000].
Proof. vm_compute. by split_and!. Qed.

Lemma retry_budget_is_five_reconnects_witness :
  exists w',
    run Scenario.parse
      (consecutive_closures 0 1 [1006; 1006; 1006; 1006; 1006; 1006])
      Scenario.connected_page = Some w'
    /\ connectionState w' = disconnected
    /\ timers w' = []
    /\ setTimeout_log w' = [2000; 4000; 8000; 16000; 32000].
Proof.
  destruct (retry_budget_is_five_reconnects Scenario.parse
              Scenario.connected_page 0 (dashboard_url 1) "tok"
              [1006; 1006; 1006; 1006; 1006; 1006]
              eq_refl eq_refl ltac:(discriminate) ltac:(discriminate)
              eq_refl eq_refl eq_refl
              ltac:(repeat constructor; discriminate))
    as [_ Hsix].
  exact (Hsix eq_refl).
Defined.

(** A [connect] for dashboard 2 while the transport of dashboard 1 is open
    changes nothing. *)
Lemma connect_to_other_dashboard_is_ignored :
  let w := Scenario.connected_page in
  let w' := connect 2 "tok" w in
  w' = w
  /\ connectionState w' = connected
  /\ url w' = Some "ws://localhost:8000/api/v1/ws/dashboard/1"
  /\ sockets w' =
       [{| sock_url := "ws://localhost:8000/api/v1/ws/dashboard/1?token=tok";
           readyState := OPEN |}].
Proof. vm_compute. by split_and!. Qed.

Lemma connect_skips_only_on_open_handle_witness :
  connect 2 "tok" Scenario.connected_page = Scenario.connected_page
  /\ url (connect 2 "tok" Scenario.backing_off_page) = Some (dashboard_url 2)
  /\ connectionState (connect 2 "tok" Scenario.backing_off_page) = connecting
  /\ ws (connect 2 "tok" Scenario.backing_off_page) = Some 1%nat.
Proof.
  destruct (connect_skips_only_on_open_handle Scenario.connected_page 2 "tok")
    as [Hskip _].
  destruct (connect_skips_only_on_open_handle Scenario.backing_off_page 2 "tok")
    as [_ Hopen].
  destruct (Hopen eq_refl ltac:(discriminate))
    as (Hu & _ & _ & Hst & Hws & _).
  split_and!; [exact (Hskip eq_refl)|exact Hu|exact Hst|exact Hws].
Defined.

(** Two [connect] calls in a row for dashboards 1 and 2: the transport of
    dashboard 1 opens and the manager is [connected]; then both transports
    are open; and a frame arriving on the transport of dashboard 1 is applied
    to the tables. *)
Lemma superseded_handle_opens_and_delivers :
  let r1 :=
    run Scenario.parse [Connect 1 "tok"; Connect 2 "tok"; SockOpen 0]
      Scenario.page in
  let r2 :=
    run Scenario.parse
      [Connect 1 "tok"; Connect 2 "tok"; SockOpen 0; SockOpen 1;
       SockMessage 0 Scenario.frame]
      Scenario.page in
  connectionState <$> r1 = Some connected
  /\ sockets <$> r2 =
       Some
         [{| sock_url := "ws://localhost:8000/api/v1/ws/dashboard/1?token=tok";
             readyState := OPEN |};
          {| sock_url := "ws://localhost:8000/api/v1/ws/dashboard/2?token=tok";
             readyState := OPEN |}]
  /\ series "cpu" <$> Scenario.tables r2 =
       Some (Some {| metric := Scenario.cpu 15 "T1";
                     previousValue := Some 10%float |}).
Proof. vm_compute. by split_and!. Qed.

Lemma second_connect_leaves_first_handle_live_witness :
  exists w3,
    step Scenario.parse (SockOpen 0)
      (connect 2 "tok" (connect 1 "tok" Scenario.page)) = Some w3
    /\ connectionState w3 = connected.
Proof.
  destruct (second_connect_leaves_first_handle_live Scenario.parse
              Scenario.page 1 "tok" 2 "tok"
              eq_refl ltac:(discriminate) ltac:(discriminate))
    as (_ & _ & _ & _ & w3 & w4 & Hstep & Hst & _).
  exists w3. split; [exact Hstep|exact Hst].
Defined.

Lemma incomplete_scope_never_opens_witness :
  connectionState (connect 1 EmptyString Scenario.page) = error
  /\ sockets (connect 1 EmptyString Scenario.page) = []
  /\ timers (connect 1 EmptyString Scenario.page) = []
  /\ forall w',
       run Scenario.parse [Disconnect; OnMessage Page.on_message]
         (connect 1 EmptyString Scenario.page) = Some w' ->
       timers w' = [] /\ setTimeout_log w' = [] /\ sockets w' = [].
Proof.
  destruct (incomplete_scope_never_opens Scenario.parse Scenario.page)
    as (_ & Hconnect & _).
  destruct (Hconnect 1 eq_refl) as (Hst & Hs & Htm & _ & Hmiss).
  split_and!; [exact Hst|exact Hs|exact Htm|].
  destruct (incomplete_scope_never_opens Scenario.parse
              (connect 1 EmptyString Scenario.page))
    as (Hfailed & _).
  destruct (Hfailed Hmiss) as (_ & _ & Hquiet).
  intros w' Hrun.
  exact (Hquiet [Disconnect; OnMessage Page.on_message] w'
           (conj (Forall_nil_2 _) eq_refl)
           ltac:(repeat constructor) Hrun).
Defined.

(** A [connect] without a credential does not always end in [error] with
    nothing scheduled.  While the transport of dashboard 1 is open the call
    is ignored and the manager stays [connected]; the call with the id 0 and
    a credential goes ahead; and while the transport of dashboard 1 is still
    connecting the failed call sets [error], but that transport then opens
    ([connected]) or closes abnormally (a reconnect is scheduled after
    2000 ms, [connecting]). *)
Lemma connect_without_credential_is_overtaken :
  connect 2 EmptyString Scenario.connected_page = Scenario.connected_page
  /\ connectionState (connect 2 EmptyString Scenario.connected_page) = connected
  /\ connectionState (connect 0 "tok" Scenario.page) = connecting
  /\ sock_url <$> sockets (connect 0 "tok" Scenario.page)
     = ["ws://localhost:8000/api/v1/ws/dashboard/0?token=tok"]
  /\ connectionState <$>
       run Scenario.parse [Connect 1 "tok"; Connect 2 EmptyString] Scenario.page
     = Some error
  /\ connectionState <$>
       run Scenario.parse [Connect 1 "tok"; Connect 2 EmptyString; SockOpen 0]
         Scenario.page
     = Some connected
  /\ (fun w => (connectionState w, timers w, setTimeout_log w)) <$>
       run Scenario.parse
         [Connect 1 "tok"; Connect 2 EmptyString; SockClose 0 1006]
         Scenario.page
     = Some (connecting, [2000], [2000]).
Proof. vm_compute. by split_and!. Qed.

Lemma malformed_payload_is_dropped_witness :
  Scenario.parse "{ not json" = Throw SyntaxError
  /\ step Scenario.parse (SockMessage 0 "{ not json") Scenario.connected_page
     = Some Scenario.connected_page.
Proof.
  split; [reflexivity|].
  destruct (malformed_payload_is_dropped Scenario.parse
              Scenario.connected_page "{ not json" SyntaxError eq_refl)
    as (_ & Hstep & _).
  exact (Hstep 0%nat eq_refl).
Defined.

Lemma pending_reconnect_survives_disconnect_witness :
  timers Scenario.backing_off_page = [2000]
  /\ connectionState (disconnect Scenario.backing_off_page) = disconnected
  /\ exists w2 w3,
       step Scenario.parse (Timeout 0) (disconnect Scenario.backing_off_page)
       = Some w2
       /\ step Scenario.parse (SockOpen 1) w2 = Some w3
       /\ connectionState w3 = connected.
Proof.
  split; [reflexivity|].
  destruct (pending_reconnect_survives_disconnect Scenario.parse
              Scenario.backing_off_page (dashboard_url 1) "tok" 2000 []
              eq_refl eq_refl ltac:(discriminate) ltac:(discriminate) eq_refl)
    as (Hst & _ & _ & w2 & w3 & Hstep2 & _ & _ & Hstep3 & Hst3 & _).
  split; [exact Hst|].
  exists w2, w3. split_and!; [exact Hstep2|exact Hstep3|exact Hst3].
Defined.

(** The run the last instance comes from, evaluated from the first call. *)
Example reconnect_after_disconnect :
  let r :=
    run Scenario.parse
      [Connect 1 "tok"; SockClose 0 1006; Disconnect; Timeout 0; SockOpen 1]
      Scenario.page in
  connectionState <$> r = Some connected
  /\ ws <$> r = Some (Some 1%nat)
  /\ retries <$> r = Some 0.
Proof. vm_compute. by split_and!. Qed.

End WebsocketFacts.

(** ** More on the connection manager *)

Module ManagerFacts.

Import Websocket WebsocketFacts Invariants.

Section Facts.

Context {any C : Type}.
Variable JSON_parse : string -> Completion (WebSocketMessage any).
Implicit Types (w : World any C) (h : nat) (code : Z).

(** What every step keeps, a run keeps. *)
Lemma run_invariant (P : World any C -> Prop) :
  (forall ev w w', P w -> step JSON_parse ev w = Some w' -> P w') ->
  forall evs w w', P w -> run JSON_parse evs w = Some w' -> P w'.
Proof.
  intros Hstep. induction evs as [|ev evs IH]; intros w w' HP; simpl.
  - by intros [= <-].
  - destruct (step JSON_parse ev w) as [w1|] eqn:Hev; [|done].
    apply IH. by eapply Hstep.
Qed.

Lemma onmessage_cases w event_data w' :
  onmessage JSON_parse event_data w = Return w' ->
  w' = w \/ exists c, w' = set_consumer c w.
Proof.
  destruct (onmessage_returns JSON_parse w event_data) as (w1 & -> & Hw1).
  by intros [= <-].
Qed.

Lemma step_message_cases w h event_data w' :
  step JSON_parse (SockMessage h event_data) w = Some w' ->
  w' = w \/ exists c, w' = set_consumer c w.
Proof.
  simpl. destruct (ready_of h w) as [[]|]; try done.
  destruct (onmessage JSON_parse event_data w) as [w1|e] eqn:Hm; [|done].
  intros [= <-]. by eapply onmessage_cases.
Qed.

(** *** The retry counter and the delays *)


Lemma delay_in_budget (k : Z) :
  0 <= k < MAX_RETRIES ->
  2 ^ (k + 1) * RETRY_INTERVAL_MS ∈ backoff_delays 0 5.
Proof.
  unfold MAX_RETRIES. intros Hk.
  assert (k = 0 \/ k = 1 \/ k = 2 \/ k = 3 \/ k = 4) as Hcases by lia.
  clear Hk.
  destruct Hcases as [->|[->|[->|[->| ->]]]]; vm_compute; set_solver.
Qed.

Lemma _doConnect_budget w : budget_kept w -> budget_kept (_doConnect w).
Proof.
  unfold budget_kept, _doConnect.
  destruct (url w), (token w); try done. by destruct (_ || _).
Qed.

Lemma onclose_budget w code : budget_kept w -> budget_kept (onclose code w).
Proof.
  intros [Hr Hlog]. unfold onclose.
  destruct (negb (code =? 1000) && (retries w <? MAX_RETRIES)) eqn:Hc; [|done].
  apply andb_true_iff in Hc as [_ Hlt%Z.ltb_lt].
  split; simpl; [lia|].
  apply Forall_app. split; [done|].
  apply Forall_singleton, delay_in_budget. lia.
Qed.

Lemma step_budget (ev : Event any C) w w' :
  budget_kept w -> step JSON_parse ev w = Some w' -> budget_kept w'.
Proof.
  intros Hb.
  destruct ev as [dashboardId tok| |callback|h|h event_data|h|h code|h|i].
  - intros [= <-]. unfold connect. destruct (ws_is_open w); [done|].
    apply _doConnect_budget. destruct Hb as [_ Hlog].
    split; simpl; [unfold MAX_RETRIES; lia|done].
  - intros [= <-]. unfold disconnect. destruct Hb as [Hr Hlog].
    destruct (ws w); split; simpl; try done.
  - by intros [= <-].
  - simpl. destruct (ready_of h w) as [[]|]; try done. intros [= <-].
    destruct Hb as [_ Hlog]. split; simpl; [unfold MAX_RETRIES; lia|done].
  - intros [->|[c ->]]%step_message_cases; done.
  - simpl. destruct (ready_of h w) as [[]|]; try done; by intros [= <-].
  - simpl. destruct (ready_of h w) as [[]|]; try done; intros [= <-];
      by apply onclose_budget.
  - simpl. destruct (ready_of h w) as [[]|]; try done. by intros [= <-].
  - simpl. destruct (timers w !! i); [|done]. intros [= <-].
    by apply _doConnect_budget.
Qed.

(** X1.  On a manager that starts fresh, whatever calls and events follow,
    the retry counter stays between 0 and [MAX_RETRIES], and every delay ever
    handed to [setTimeout] is one of 2000, 4000, 8000, 16000, 32000 ms: the
    backoff has no explicit ceiling, the budget bounds it. *)
Theorem backoff_is_bounded_by_budget (c : C) (evs : list (Event any C)) w :
  run JSON_parse evs (fresh c) = Some w ->
  0 <= retries w <= 5
  /\ Forall (fun delay => delay ∈ [2000; 4000; 8000; 16000; 32000])
       (setTimeout_log w).
Proof.
  intros Hrun.
  apply (run_invariant budget_kept step_budget evs (fresh c) w); [|done].
  split; simpl; [unfold MAX_RETRIES; lia|constructor].
Qed.

(** *** The held handle *)


Lemma _doConnect_holds_latest w : holds_latest w -> holds_latest (_doConnect w).
Proof.
  unfold holds_latest, _doConnect. intros Hw.
  destruct (url w), (token w); try done.
  destruct (_ || _); [done|]. simpl. intros h [= <-].
  rewrite length_app; simpl. lia.
Qed.

Lemma step_holds_latest (ev : Event any C) w w' :
  holds_latest w -> step JSON_parse ev w = Some w' -> holds_latest w'.
Proof.
  intros Hw.
  destruct ev as [dashboardId tok| |callback|h|h event_data|h|h code|h|i].
  - intros [= <-]. unfold connect. destruct (ws_is_open w); [done|].
    by apply _doConnect_holds_latest.
  - intros [= <-]. unfold disconnect, holds_latest.
    destruct (ws w) eqn:Hws; simpl; [done|]. rewrite Hws. done.
  - by intros [= <-].
  - simpl. destruct (ready_of h w) as [[]|]; try done. intros [= <-].
    unfold holds_latest; simpl. rewrite length_alter. apply Hw.
  - intros [->|[c ->]]%step_message_cases; done.
  - simpl. destruct (ready_of h w) as [[]|]; try done; by intros [= <-].
  - assert (forall w0, holds_latest w0 -> holds_latest (onclose code w0)) as Hc.
    { intros w0 Hw0. unfold onclose. by destruct (_ && _). }
    simpl. destruct (ready_of h w) as [[]|]; try done; intros [= <-];
      apply Hc; unfold holds_latest; simpl; rewrite length_alter; apply Hw.
  - simpl. destruct (ready_of h w) as [[]|]; try done. intros [= <-].
    unfold holds_latest; simpl. rewrite length_alter. apply Hw.
  - simpl. destruct (timers w !! i); [|done]. intros [= <-].
    by apply _doConnect_holds_latest.
Qed.

(** X2.  On a manager that starts fresh, the transport it holds in [this.ws],
    when it holds one, is always the one constructed last: every transport
    constructed earlier is out of the manager's reach, whether closed or
    not. *)
Theorem held_handle_is_latest (c : C) (evs : list (Event any C)) w h :
  run JSON_parse evs (fresh c) = Some w ->
  ws w = Some h ->
  S h = length (sockets w).
Proof.
  intros Hrun.
  by apply (run_invariant holds_latest step_holds_latest evs (fresh c) w).
Qed.

(** *** [connected] and the transports *)


Lemma _doConnect_connected w :
  connected_means_open w -> connected_means_open (_doConnect w).
Proof.
  unfold connected_means_open, _doConnect. intros Hw.
  destruct (url w), (token w); try done.
  destruct (_ || _); [done|]. simpl. intros Hst.
  destruct (Hw Hst) as [h Hh]. exists h. unfold ready_of in *; simpl.
  destruct (sockets w !! h) as [sock|] eqn:Hs; [|by destruct Hh].
  by rewrite (lookup_app_l_Some _ _ _ _ Hs).
Qed.

Lemma _doConnect_state w :
  connectionState (_doConnect w) = error
  \/ connectionState (_doConnect w) = connectionState w.
Proof.
  unfold _doConnect. destruct (url w), (token w); simpl; try by left.
  destruct (_ || _); simpl; by eauto.
Qed.

Lemma step_connected (ev : Event any C) w w' :
  connected_means_open w -> step JSON_parse ev w = Some w' ->
  connected_means_open w'.
Proof.
  intros Hw.
  destruct ev as [dashboardId tok| |callback|h|h event_data|h|h code|h|i].
  - intros [= <-]. unfold connect. destruct (ws_is_open w); [done|].
    unfold connected_means_open. intros Hst.
    by destruct (_doConnect_state
                   (setState connecting
                      (set_retries 0
                         (set_token (Some tok)
                            (set_url (Some (dashboard_url dashboardId)) w)))))
      as [He|He]; rewrite He in Hst.
  - by intros [= <-].
  - by intros [= <-].
  - simpl. destruct (ready_of h w) as [[]|] eqn:Hr; try done. intros [= <-].
    intros _. exists h. left. unfold ready_of in *; simpl.
    rewrite list_lookup_alter_eq.
    by destruct (sockets w !! h).
  - intros [->|[c ->]]%step_message_cases; done.
  - simpl. destruct (ready_of h w) as [[]|]; try done; by intros [= <-].
  - assert (forall w0, connectionState (onclose code w0) <> connected) as Hc.
    { intros w0. unfold onclose. by destruct (_ && _). }
    simpl. destruct (ready_of h w) as [[]|]; try done; intros [= <-];
      intros Hst; by apply Hc in Hst.
  - simpl. destruct (ready_of h w) as [[]|] eqn:Hr; try done. intros [= <-].
    intros Hst. destruct (Hw Hst) as [h0 Hh0].
    destruct (decide (h0 = h)) as [->|Hne].
    + exists h. right. unfold ready_of in *; simpl.
      rewrite list_lookup_alter_eq. by destruct (sockets w !! h).
    + exists h0. unfold ready_of in *; simpl.
      by rewrite list_lookup_alter_ne.
  - simpl. destruct (timers w !! i); [|done]. intros [= <-].
    by apply _doConnect_connected.
Qed.

(** X3.  On a manager that starts fresh, the state [connected] is never
    reported without a transport whose close event is still to come: one
    that is open, or one whose closing handshake has started.  The state
    can outlive the open transport only in that window, between the start
    of a closing handshake the manager did not ask for and the close
    event. *)
Theorem connected_has_open_transport (c : C) (evs : list (Event any C)) w :
  run JSON_parse evs (fresh c) = Some w ->
  connectionState w = connected ->
  exists h, ready_of h w = Some OPEN \/ ready_of h w = Some CLOSING.
Proof.
  intros Hrun.
  by apply (run_invariant connected_means_open step_connected evs (fresh c) w).
Qed.

(** *** Error events *)

(** X4.  An error event on a transport changes nothing but the reported
    state, and the close event that follows it overwrites that: an error
    followed by the close of the same transport leaves the manager exactly
    where the close alone would, so the retry decision does not depend on
    the error. *)
Theorem error_before_close_is_absorbed w h code r :
  ready_of h w = Some r -> r <> CLOSED ->
  run JSON_parse [SockError h; SockClose h code] w
  = run JSON_parse [SockClose h code] w
  /\ exists w1, step JSON_parse (SockError h) w = Some w1
       /\ connectionState w1 = error
       /\ retries w1 = retries w
       /\ timers w1 = timers w
       /\ sockets w1 = sockets w.
Proof.
  intros Hr Hne. split.
  - cbn [run]. rewrite !(step_close _ _ _ _ _ Hr Hne).
    assert (step JSON_parse (SockError h) w = Some (onerror w)) as ->.
    { simpl. rewrite Hr. by destruct r. }
    assert (ready_of h (onerror w) = Some r) as Hr' by done.
    rewrite (step_close _ _ _ _ _ Hr' Hne).
    unfold onclose; simpl. by destruct (_ && _).
  - exists (onerror w). split; [|done].
    simpl. rewrite Hr. by destruct r.
Qed.

(** *** Delivery to the callback *)

Lemma set_consumer_id w : set_consumer (consumer w) w = w.
Proof. by destruct w. Qed.

(** X5.  Messages that parse, arriving on an open transport, reach the
    registered callback one by one in the order they arrive: the consumer's
    state after the run is the callback folded over the parsed messages, and
    nothing else of the manager has changed. *)
Theorem messages_are_delivered_in_order
    w h (callback : MessageCallback any C)
    (f : WebSocketMessage any -> C -> C)
    (frames : list string) (messages : list (WebSocketMessage any)) :
  ready_of h w = Some OPEN ->
  onMessageCallback w = Some callback ->
  (forall message c, callback message c = Return (f message c)) ->
  Forall2 (fun text message => JSON_parse text = Return message)
    frames messages ->
  run JSON_parse (SockMessage h <$> frames) w
  = Some (set_consumer (foldl (fun c message => f message c) (consumer w) messages) w).
Proof.
  intros Hr Hcb Hf Hall. revert w Hr Hcb.
  induction Hall as [|text message frames messages Hp Hall IH]; intros w Hr Hcb.
  - simpl. by rewrite set_consumer_id.
  - cbn [fmap list_fmap run foldl]. rewrite (step_message _ _ _ _ Hr).
    rewrite (onmessage_delivers _ _ _ _ _ _ Hp Hcb (Hf _ _)).
    rewrite IH by done. done.
Qed.

(** *** [disconnect] and what follows it *)

(** X7.  [disconnect] is idempotent: a second call changes nothing. *)
Theorem disconnect_twice w : disconnect (disconnect w) = disconnect w.
Proof. unfold disconnect. destruct w as [[h|] ? ? ? ? ? ? ? ? ?]; done. Qed.

Lemma _doConnect_keeps w :
  retries (_doConnect w) = retries w
  /\ timers (_doConnect w) = timers w
  /\ setTimeout_log (_doConnect w) = setTimeout_log w.
Proof.
  unfold _doConnect. destruct (url w), (token w); try done.
  by destruct (_ || _).
Qed.

Lemma step_keeps_exhausted (ev : Event any C) w w' :
  rearms ev = false -> retries w = MAX_RETRIES ->
  step JSON_parse ev w = Some w' ->
  retries w' = MAX_RETRIES
  /\ setTimeout_log w' = setTimeout_log w
  /\ timers w' `sublist_of` timers w.
Proof.
  intros Hev Hre.
  destruct ev as [dashboardId tok| |callback|h|h event_data|h|h code|h|i];
    try done.
  - intros [= <-]. unfold disconnect. by destruct (ws w).
  - by intros [= <-].
  - intros [->|[c ->]]%step_message_cases; done.
  - simpl. destruct (ready_of h w) as [[]|]; try done; by intros [= <-].
  - simpl. destruct (ready_of h w) as [[]|]; try done; intros [= <-];
      by rewrite onclose_exhausted by (simpl; lia).
  - simpl. destruct (ready_of h w) as [[]|]; try done; by intros [= <-].
  - simpl. destruct (timers w !! i); [|done]. intros [= <-].
    destruct (_doConnect_keeps (set_timers (delete i (timers w)) w))
      as (-> & -> & ->).
    simpl. split_and!; [done|done|apply sublist_delete].
Qed.

Lemma run_keeps_exhausted (evs : list (Event any C)) : forall w w',
  Forall (fun ev => rearms ev = false) evs -> retries w = MAX_RETRIES ->
  run JSON_parse evs w = Some w' ->
  retries w' = MAX_RETRIES
  /\ setTimeout_log w' = setTimeout_log w
  /\ timers w' `sublist_of` timers w.
Proof.
  induction evs as [|ev evs IH]; intros w w' Hall Hre; simpl.
  - by intros [= <-].
  - apply Forall_cons in Hall as [Hev Hall].
    destruct (step JSON_parse ev w) as [w1|] eqn:Hstep; [|done].
    destruct (step_keeps_exhausted _ _ _ Hev Hre Hstep) as (Hre1 & Hlog1 & Htm1).
    intros Hrun. destruct (IH _ _ Hall Hre1 Hrun) as (? & ? & ?).
    split_and!; [done|congruence|by etrans].
Qed.

(** X8.  After [disconnect] has closed the held transport, and for as long
    as neither a [connect] call nor a successful open gives the retry budget
    back, no close event starts a retry, whatever transport it is for and
    whatever code it carries: after any such events and then a close event
    the manager reports [disconnected], the counter is still at
    [MAX_RETRIES], nothing has been handed to [setTimeout] and no timer has
    been added.  The close event of the transport that [disconnect] closed
    can indeed follow the call at once.  (A [connect] call or an open before
    the close event sets the counter to 0, and the close event then starts
    a retry.) *)
Theorem close_after_disconnect_never_retries
    w h (evs : list (Event any C)) h' code w' :
  ws w = Some h ->
  Forall (fun ev => rearms ev = false) evs ->
  run JSON_parse (Disconnect :: evs ++ [SockClose h' code]) w = Some w' ->
  connectionState w' = disconnected
  /\ retries w' = MAX_RETRIES
  /\ setTimeout_log w' = setTimeout_log w
  /\ timers w' `sublist_of` timers w
  /\ (forall r, ready_of h w = Some r -> r <> CLOSED ->
        exists w1,
          run JSON_parse [Disconnect; SockClose h code] w = Some w1
          /\ ready_of h w1 = Some CLOSED
          /\ ws w1 = None
          /\ timers w1 = timers w).
Proof.
  intros Hws Hall.
  change (run JSON_parse (Disconnect :: evs ++ [SockClose h' code]) w)
    with (run JSON_parse (evs ++ [SockClose h' code]) (disconnect w)).
  assert (retries (disconnect w) = MAX_RETRIES) as Hre0
    by (unfold disconnect; by rewrite Hws).
  assert (setTimeout_log (disconnect w) = setTimeout_log w
          /\ timers (disconnect w) = timers w) as [Hlog0 Htm0]
    by (unfold disconnect; by rewrite Hws).
  rewrite run_app.
  destruct (run JSON_parse evs (disconnect w)) as [w1|] eqn:Hrun; [|done].
  destruct (run_keeps_exhausted _ _ _ Hall Hre0 Hrun) as (Hre1 & Hlog1 & Htm1).
  cbn [run].
  destruct (step JSON_parse (SockClose h' code) w1) as [w2|] eqn:Hstep; [|done].
  intros [= <-].
  assert (w2 = setState disconnected (set_ready h' CLOSED w1)) as ->.
  { simpl in Hstep. destruct (ready_of h' w1) as [[]|]; try done;
      injection Hstep as <-; by rewrite onclose_exhausted by (simpl; lia). }
  split_and!; [done|done|simpl; congruence|simpl; by rewrite <- Htm0|].
  intros r Hr Hne.
  assert (ready_of h (disconnect w) = Some CLOSING) as Hr1.
  { unfold disconnect, ready_of in *. rewrite Hws; simpl.
    rewrite list_lookup_alter_eq.
    destruct (sockets w !! h) as [sock|]; simpl in *; [|done].
    injection Hr as Hr. unfold close_call. rewrite Hr.
    destruct r; simpl; congruence. }
  assert (run JSON_parse [Disconnect; SockClose h code] w
          = Some (setState disconnected (set_ready h CLOSED (disconnect w))))
    as Hrun2.
  { change (run JSON_parse [Disconnect; SockClose h code] w)
      with (run JSON_parse [SockClose h code] (disconnect w)).
    cbn [run]. rewrite (step_close _ _ _ _ _ Hr1) by done.
    rewrite onclose_exhausted; [done|].
    change (MAX_RETRIES <= retries (disconnect w)). lia. }
  eexists. split; [exact Hrun2|]. unfold disconnect. rewrite Hws. simpl.
  split_and!; try done.
  unfold ready_of in *; simpl. rewrite !list_lookup_alter_eq.
  by destruct (sockets w !! h).
Qed.

(** *** A successful open *)

(** X9.  A successful open gives the whole retry budget back: whatever the
    counter was while connecting, an abnormal close after the open schedules
    the reconnect with the first delay, 2000 ms. *)
Theorem open_resets_backoff w h code :
  ready_of h w = Some CONNECTING -> code <> 1000 ->
  exists w',
    run JSON_parse [SockOpen h; SockClose h code] w = Some w'
    /\ connectionState w' = connecting
    /\ retries w' = 1
    /\ timers w' = timers w ++ [2000]
    /\ setTimeout_log w' = setTimeout_log w ++ [2000].
Proof.
  intros Hr Hcode. cbn [run]. rewrite (step_open _ _ _ Hr).
  assert (ready_of h (onopen (set_ready h OPEN w)) = Some OPEN) as Hr1.
  { unfold ready_of in *; simpl. rewrite list_lookup_alter_eq.
    by destruct (sockets w !! h). }
  rewrite (step_close _ _ _ _ _ Hr1) by done.
  rewrite onclose_retry; [|done|simpl; unfold MAX_RETRIES; lia].
  eexists. split; [done|]. by simpl.
Qed.

(** *** A [connect] during a backoff window *)

(** X10.  The URL and the credential of a reconnect are read when the timer
    fires, not when it was scheduled: after a [connect] for another scope in
    a backoff window, the pending timer constructs its transport for the
    scope of that [connect], next to the transport the [connect] itself
    constructed, and the manager holds the later of the two. *)
Theorem reconnect_targets_latest_scope w dashboardId tok (delay : Z) rest :
  timers w = delay :: rest -> ws_is_open w = false -> tok <> EmptyString ->
  let target :=
    {| sock_url := full_url (dashboard_url dashboardId) tok;
       readyState := CONNECTING |} in
  exists w',
    run JSON_parse [Connect dashboardId tok; Timeout 0] w = Some w'
    /\ sockets w' = sockets w ++ [target; target]
    /\ ws w' = Some (S (length (sockets w)))
    /\ timers w' = rest
    /\ connectionState w' = connecting.
Proof.
  intros Htm Hopen Htok target.
  change (run JSON_parse [Connect dashboardId tok; Timeout 0] w)
    with (run JSON_parse [Timeout 0] (connect dashboardId tok w)).
  cbn [run].
  destruct (connect_new_handle w dashboardId tok Hopen Htok)
    as (Hu & Ht & _ & Hst & Hws & Hs & Htm1 & _).
  set (w1 := connect dashboardId tok w) in *.
  rewrite (step_timeout _ w1 0 delay) by (by rewrite Htm1, Htm).
  rewrite (_doConnect_opens _ (dashboard_url dashboardId) tok);
    [|done|done|apply dashboard_url_truthy|done].
  eexists. split; [done|]. simpl.
  rewrite Hs, <- app_assoc, length_app. simpl.
  split_and!; try done.
  - f_equal. lia.
  - by rewrite Htm1, Htm.
Qed.

End Facts.

End ManagerFacts.

(** ** More on the tables of [Dashboard.tsx] *)

Module TableFacts.

Import Api Dashboard Handlers DashboardFacts.

(** *** What a seed shows *)

Lemma series_cons m ms h s :
  series s {| metrics := m :: ms; metricsHistory := h |} =
  if named s m then Some m
  else series s {| metrics := ms; metricsHistory := h |}.
Proof.
  unfold series; simpl. destruct (named s m); [done|].
  by destruct (Js.findIndex (named s) ms).
Qed.

Lemma series_seed_head (initialMetrics : list Metric) s h :
  series s {| metrics := bare <$> initialMetrics; metricsHistory := h |} =
  bare <$> head (filter (fun m => name m = s) initialMetrics).
Proof.
  induction initialMetrics as [|m ms IH]; [done|].
  rewrite fmap_cons, series_cons, filter_cons. unfold named at 1; simpl.
  destruct (String.eqb_spec (name m) s) as [Heq|Hne].
  - by rewrite decide_True.
  - by rewrite decide_False.
Qed.

Lemma initialHistory_shape (initialMetrics : list Metric) :
  (forall s,
     Js.own (initialHistory initialMetrics) !! s =
     if decide (s = "__proto__") then None
     else (fun m => [point_of m])
            <$> last (filter (fun m => name m = s) initialMetrics))
  /\ Js.proto (initialHistory initialMetrics) =
     match last (filter (fun m => name m = "__proto__") initialMetrics) with
     | Some m => Js.ArrayInstance [point_of m]
     | None => Js.ObjectPrototype
     end.
Proof.
  induction initialMetrics as [|m ms [IHown IHproto]] using rev_ind.
  - split; [|done]. intros s. case_decide; [apply lookup_empty|].
    change ((∅ : gmap string (list MetricChart.MetricDataPoint)) !! s = None).
    apply lookup_empty.
  - rewrite initialHistory_snoc. unfold Js.assign.
    destruct (String.eqb_spec (name m) "__proto__") as [Hm|Hm]; simpl.
    + rewrite Hm. rewrite bool_decide_eq_true_2
        by (rewrite IHown; by rewrite decide_True).
      simpl. split.
      * intros s. rewrite IHown. case_decide as Hs; [done|].
        rewrite filter_app, filter_cons_False, filter_nil, app_nil_r; [done|].
        congruence.
      * rewrite filter_app, filter_cons_True, filter_nil by done.
        by rewrite last_snoc.
    + split.
      * intros s. destruct (decide (s = name m)) as [->|Hne].
        -- rewrite lookup_insert_eq, decide_False by done.
           rewrite filter_app, filter_cons_True, filter_nil by done.
           by rewrite last_snoc.
        -- rewrite lookup_insert_ne, IHown by done.
           rewrite filter_app, filter_cons_False, filter_nil, app_nil_r; [done|].
           congruence.
      * rewrite IHproto.
        rewrite filter_app, filter_cons_False, filter_nil, app_nil_r; [done|].
        done.
Qed.

Lemma history_seed_last (initialMetrics : list Metric) s :
  history s (seed initialMetrics) =
  match last (filter (fun m => name m = s) initialMetrics) with
  | Some m => [point_of m]
  | None => []
  end.
Proof.
  destruct (initialHistory_shape initialMetrics) as [Hown Hproto].
  unfold history, seed, Js.get; simpl. rewrite Hown, Hproto.
  destruct (decide (s = "__proto__")) as [->|Hs].
  - destruct (last _) as [m|]; simpl; done.
  - destruct (last (filter (fun m => name m = s) initialMetrics)) as [m|];
      simpl; [done|].
    destruct (last _) as [m'|]; simpl.
    + apply String.eqb_neq in Hs. rewrite Hs.
      destruct (String.eqb s "length"); [done|].
      repeat case_bool_decide; simpl; done.
    + by case_bool_decide.
Qed.

Lemma filter_name_fresh (ms : list Metric) s :
  s ∉ name <$> ms -> filter (fun m => name m = s) ms = [].
Proof.
  induction ms as [|m ms IH]; [done|].
  rewrite fmap_cons, not_elem_of_cons. intros [Hne Hnot].
  rewrite filter_cons_False by congruence. by apply IH.
Qed.

(** X11.  What the page shows right after a snapshot: for each name, the card
    is the first metric of that name in the snapshot, with no previous value,
    and the history is the single point of the last metric of that name; a
    name the snapshot does not contain has no card and an empty history. *)
Theorem seed_shows_first_card_last_point (initialMetrics : list Metric) s :
  let same_name := filter (fun m => name m = s) initialMetrics in
  series s (seed initialMetrics) = bare <$> head same_name
  /\ history s (seed initialMetrics) =
     match last same_name with
     | Some m => [point_of m]
     | None => []
     end
  /\ (s ∉ name <$> initialMetrics ->
      series s (seed initialMetrics) = None
      /\ history s (seed initialMetrics) = []).
Proof.
  cbv zeta. split_and!.
  - apply series_seed_head.
  - apply history_seed_last.
  - intros Hnot. rewrite history_seed_last. unfold seed.
    by rewrite series_seed_head, filter_name_fresh.
Qed.

(** *** The names in the table *)





(** *** The card and the last point of the history *)

Lemma last_slice_last_snoc {A} (n : nat) (l : list A) x :
  last (Js.slice_last (S n) (l ++ [x])) = Some x.
Proof.
  unfold Js.slice_last. rewrite length_app; simpl.
  rewrite drop_app_le by lia. apply last_snoc.
Qed.

Lemma filter_name_NoDup (ms : list Metric) s :
  NoDup (name <$> ms) ->
  head (filter (fun m => name m = s) ms) = last (filter (fun m => name m = s) ms).
Proof.
  induction ms as [|m ms IH]; [done|].
  rewrite fmap_cons, NoDup_cons. intros [Hm Hnd].
  rewrite filter_cons. destruct (decide (name m = s)) as [<-|Hne].
  - by rewrite filter_name_fresh.
  - by apply IH.
Qed.

Lemma synced_seed (initialMetrics : list Metric) :
  NoDup (name <$> initialMetrics) -> synced (seed initialMetrics).
Proof.
  intros Hnd s e. unfold seed at 1. rewrite series_seed_head, history_seed_last.
  rewrite <- filter_name_NoDup by done.
  destruct (head _) as [m|]; simpl; [|done]. by intros [= <-].
Qed.

Lemma synced_applyUpdate u st :
  plain st -> ordinary (name u) -> synced st -> synced (applyUpdate u st).
Proof.
  intros Hplain Hu Hst s e. destruct (decide (s = name u)) as [->|Hne].
  - rewrite series_applyUpdate_eq, history_applyUpdate_eq by done.
    intros [= <-]; simpl. apply (last_slice_last_snoc 99).
  - rewrite series_applyUpdate_ne, history_applyUpdate_ne by done. apply Hst.
Qed.

(** X13.  After a snapshot with distinct ordinary names and any run of
    updates of ordinary names, the page has not crashed and the card of
    every series and its history agree: the last point of the history is the
    time stamp and the value of the metric on the card. *)
Theorem card_matches_last_point (initialMetrics updates : list Metric) :
  NoDup (name <$> initialMetrics) ->
  Forall ordinary (name <$> initialMetrics) ->
  Forall ordinary (name <$> updates) ->
  (exists obj, metricsHistory (applyUpdates updates (seed initialMetrics)) = Held obj)
  /\ synced (applyUpdates updates (seed initialMetrics)).
Proof.
  intros Hnd Hseed Hupdates. split.
  { destruct (plain_applyUpdates updates _ (plain_seed _ Hseed) Hupdates)
      as (obj & Hobj & _).
    by exists obj. }
  induction updates as [|u updates IH] using rev_ind.
  - by apply synced_seed.
  - rewrite fmap_app, Forall_app in Hupdates. destruct Hupdates as [Hall Hu].
    apply Forall_inv in Hu. rewrite applyUpdates_snoc.
    apply synced_applyUpdate; [|done|by apply IH].
    by apply plain_applyUpdates, Hall; apply plain_seed.
Qed.

(** X18.  For ordinary names the history is bounded and first-in first-out.
    After a snapshot of ordinary names and any run of updates of ordinary
    names, the page has not crashed, the history stored for a series holds
    at most 100 points, and it is the list of the points that arrived for
    that series (the seeded point, if any, then the points of the updates of
    that name, in the order they were applied) with the oldest ones dropped
    until 100 are left. *)
Theorem history_keeps_latest_100_ordinary
    (initialMetrics updates : list Metric) (s : string) :
  Forall ordinary (name <$> initialMetrics) ->
  Forall ordinary (name <$> updates) ->
  let st := applyUpdates updates (seed initialMetrics) in
  let arrived := history s (seed initialMetrics) ++ points_for s updates in
  (exists obj, metricsHistory st = Held obj)
  /\ (length (history s st) <= 100)%nat
  /\ history s st = drop (length arrived - 100) arrived
  /\ (length (history s (seed initialMetrics)) <= 1)%nat.
Proof.
  intros Hseed Hupdates. cbv zeta.
  assert (length (history s (seed initialMetrics)) <= 1)%nat as Hone.
  { rewrite history_seed_last. destruct (last _); simpl; lia. }
  pose proof (plain_seed _ Hseed) as Hplain.
  rewrite (history_applyUpdates _ _ _ Hplain Hupdates) by lia.
  split_and!; [|rewrite slice_last_length; lia|done|done].
  destruct (plain_applyUpdates updates _ Hplain Hupdates) as (obj & Hobj & _).
  by exists obj.
Qed.

(** *** Deleting a metric *)

Lemma NoDup_names_eq (ms : list MetricState) x y :
  NoDup ((fun m => name (metric m)) <$> ms) ->
  x ∈ ms -> y ∈ ms -> name (metric x) = name (metric y) -> x = y.
Proof.
  induction ms as [|m ms IH]; [by intros _ ?%elem_of_nil|].
  rewrite fmap_cons, NoDup_cons. intros [Hm Hnd].
  intros [->|Hx]%elem_of_cons [->|Hy]%elem_of_cons Heq; [done| | |by apply IH].
  - destruct Hm. rewrite Heq.
    by apply (list_elem_of_fmap_2 (fun m => name (metric m))).
  - destruct Hm. rewrite <- Heq.
    by apply (list_elem_of_fmap_2 (fun m => name (metric m))).
Qed.

(** X14.  [handleDeleteMetric] removes the card and keeps the history.  In a
    table with distinct names whose history table is plain, after the metric
    shown for a series of an ordinary name is deleted the series has no
    card; the next update of that name creates the card anew, with no
    previous value, while its history goes on from the points kept from
    before the deletion. *)
Theorem delete_keeps_history (st : State) (s : string) (e : MetricState) (u : Metric) :
  plain st -> ordinary s ->
  NoDup (names st) -> series s st = Some e -> name u = s ->
  let st1 := deleteMetric (id (metric e)) st in
  series s st1 = None
  /\ history s st1 = history s st
  /\ series s (applyUpdate u st1) = Some (bare u)
  /\ history s (applyUpdate u st1) =
     Js.slice_last 100 (history s st ++ [point_of u]).
Proof.
  intros Hplain Hs Hnd He <-. cbv zeta.
  assert (series (name u) (deleteMetric (id (metric e)) st) = None) as Hgone.
  { destruct (Js.findIndex (named (name u)) (metrics st)) as [i|] eqn:Hf;
      [|by unfold series in He; rewrite Hf in He].
    rewrite (series_found _ _ _ Hf) in He. unfold series.
    destruct (findIndex_Some _ _ _ Hf) as (e' & He' & Hp & _).
    rewrite He in He'. injection He' as <-. apply String.eqb_eq in Hp.
    assert (Js.findIndex (named (name u))
              (metrics (deleteMetric (id (metric e)) st)) = None) as ->; [|done].
    apply findIndex_None, Forall_forall. intros x Hx.
    apply list_elem_of_filter in Hx as [Hid Hx].
    apply String.eqb_neq. intros Hname. apply Hid. f_equal. f_equal.
    apply (NoDup_names_eq (metrics st)); [done|done| |congruence].
    by eapply list_elem_of_lookup_2. }
  assert (plain (deleteMetric (id (metric e)) st)) as Hplain1 by done.
  split_and!; [done|done| |].
  - by rewrite series_applyUpdate_eq, Hgone.
  - by rewrite history_applyUpdate_eq.
Qed.

(** *** A failed snapshot request *)

Lemma cannot_read_truthy (n : ApiService.Nullish) (prop : string) :
  or_else (Some (ApiService.cannot_read n prop)) "Failed to fetch metrics"
  = ApiService.cannot_read n prop.
Proof. by destruct n. Qed.

Lemma msgs_Thrown ds m :
  ApiService.msgs ds = ApiService.Thrown m ->
  exists n, inl n ∈ ds /\ m = ApiService.cannot_read n "msg".
Proof.
  induction ds as [|[n|d] ds IH]; simpl; [done| |].
  - intros [= <-]. exists n. split; [left|done].
  - destruct (ApiService.msgs ds) as [rest|m'] eqn:Hds; [done|].
    intros [= <-]. destruct (IH eq_refl) as (n & Hn & ->).
    exists n. split; [by right|done].
Qed.

(** X15.  A failed snapshot request leaves the tables and the selection as
    they were and ends loading.  Whenever [handleError] rejects with a
    string (the server's [detail], the joined validation messages, the
    network text or the error's own message) the page shows the fallback
    "Failed to fetch metrics" and not that string, because
    [handleDashboardSelect] reads [err.message]; the server's [detail]
    string in particular is never shown.  The one other rejection is the
    [TypeError] that [handleError] throws when the answer has a nullish body
    or a nullish element in its [detail] array: then the page shows the
    message of that [TypeError]. *)
Theorem failed_snapshot_shows_fallback (error : ApiService.AxiosError) (p : Selection) :
  let settled := ApiService.getDashboardMetrics (inr error) in
  let p' := select_settle settled p in
  tables p' = tables p
  /\ selectedDashboardId p' = selectedDashboardId p
  /\ loadingMetrics p' = false
  /\ (exists reason, settled = ApiService.Rejected reason)
  /\ (forall text, settled = ApiService.Rejected (ApiService.ReasonString text) ->
        metricsError p' = Some "Failed to fetch metrics")
  /\ (forall detail,
        ApiService.response error
        = Some (ApiService.BodyValue (ApiService.DetailString detail)) ->
        settled = ApiService.Rejected (ApiService.ReasonString detail))
  /\ (forall m, settled = ApiService.Rejected (ApiService.ReasonError m) ->
        metricsError p' = Some m
        /\ exists n,
             (m = ApiService.cannot_read n "detail"
              /\ ApiService.response error = Some (ApiService.BodyNullish n))
             \/ (m = ApiService.cannot_read n "msg"
                 /\ exists ds,
                      ApiService.response error
                      = Some (ApiService.BodyValue (ApiService.DetailArray ds))
                      /\ inl n ∈ ds)).
Proof.
  cbv zeta. unfold ApiService.getDashboardMetrics, ApiService.handleError.
  destruct (ApiService.response error) as [[n|[s|ds|]]|].
  - split_and!; [done|done|done|by eauto|done|done|].
    intros m [= <-]. cbn [select_settle metricsError message_of].
    rewrite cannot_read_truthy. split; [done|].
    exists n. by left.
  - split_and!; [done|done|done|by eauto|done|by intros ? [= ->]|done].
  - destruct (ApiService.msgs ds) as [ms|m'] eqn:Hds.
    + split_and!; [done|done|done|by eauto|done|done|done].
    + destruct (msgs_Thrown _ _ Hds) as (n & Hn & ->).
      split_and!; [done|done|done|by eauto|done|done|].
      intros m [= <-]. cbn [select_settle metricsError message_of].
    rewrite cannot_read_truthy. split; [done|].
      exists n. right. by eauto.
  - split_and!; [done|done|done|by eauto|done|done|done].
  - destruct (ApiService.request error);
      (split_and!; [done|done|done|by eauto|done|done|done]).
Qed.

End TableFacts.

(** ** The page's effect on the manager *)

Module EffectFacts.

Import Api Dashboard Websocket Handlers WebsocketFacts.

Section Facts.

Variable JSON_parse : string -> Completion (WebSocketMessage Metric).
Implicit Types (w : World Metric State).

Lemma truthy_id_Some (n : Z) : truthy_id (Some n) = true <-> n <> 0.
Proof.
  simpl. destruct (Z.eqb_spec n 0); simpl; split; congruence.
Qed.

Lemma effect_runs (n : Z) (tok : string) :
  n <> 0 -> tok <> EmptyString ->
  effect (Some n) (Some tok) = [Connect n tok; OnMessage Page.on_message]
  /\ cleanup (Some n) (Some tok) = [Disconnect].
Proof.
  intros Hn%truthy_id_Some Htok%truthy_Some.
  unfold effect, cleanup. by rewrite Hn, Htok.
Qed.

(** X16.  The page's effect connects exactly when a dashboard is selected
    and the token is non-empty.  With no dashboard selected (or the id 0), or
    with no token (or the empty one), the effect does nothing to the manager
    and leaves no cleanup behind.  With a selected dashboard and a non-empty
    token the effect calls [connect] with them and registers the page's
    callback, and leaves [disconnect] as cleanup; run on a manager that holds
    no open transport, it constructs a transport for the URL of that
    dashboard and token, which the manager holds, and leaves the manager
    [connecting] with the page's callback registered. *)
Theorem page_connects_only_with_full_scope
    (dashboardId : option Z) (token : option string) :
  (dashboardId = None \/ dashboardId = Some 0
   \/ token = None \/ token = Some EmptyString ->
   effect dashboardId token = [] /\ cleanup dashboardId token = [])
  /\ (forall n tok,
        dashboardId = Some n -> token = Some tok ->
        n <> 0 -> tok <> EmptyString ->
        effect dashboardId token = [Connect n tok; OnMessage Page.on_message]
        /\ cleanup dashboardId token = [Disconnect]
        /\ forall w, ws_is_open w = false ->
             exists w',
               run JSON_parse (effect dashboardId token) w = Some w'
               /\ connectionState w' = connecting
               /\ onMessageCallback w' = Some Page.on_message
               /\ ws w' = Some (length (sockets w))
               /\ sockets w' =
                    sockets w ++ [{| sock_url := full_url (dashboard_url n) tok;
                                     readyState := CONNECTING |}]).
Proof.
  split.
  - intros [-> | [-> | [-> | ->] ] ]; unfold effect, cleanup; simpl.
    + done.
    + by destruct token.
    + by destruct dashboardId; rewrite ?andb_false_r.
    + by destruct dashboardId; rewrite ?andb_false_r.
  - intros n tok -> -> Hn Htok.
    destruct (effect_runs n tok Hn Htok) as [-> ->].
    split_and!; try done.
    intros w Hopen.
    destruct (connect_new_handle w n tok Hopen Htok)
      as (_ & _ & _ & Hst & Hws & Hs & _).
    eexists. split; [done|]. simpl. by split_and!.
Qed.

(** X17.  Switching dashboards through the page runs the cleanup of the old
    effect and then the new effect: the open transport of the old dashboard
    is told to close before the transport of the new one is constructed, the
    manager holds the new one, is [connecting] with the retry counter at
    zero, and the page's callback is registered. *)
Theorem switching_dashboards_closes_first
    w h (old_id : Z) (old_tok : string) (n : Z) (tok : string) :
  ws w = Some h -> ready_of h w = Some OPEN ->
  old_id <> 0 -> old_tok <> EmptyString -> n <> 0 -> tok <> EmptyString ->
  exists w',
    run JSON_parse
      (cleanup (Some old_id) (Some old_tok) ++ effect (Some n) (Some tok)) w
    = Some w'
    /\ ready_of h w' = Some CLOSING
    /\ ws w' = Some (length (sockets w))
    /\ sockets w' !! length (sockets w) =
         Some {| sock_url := full_url (dashboard_url n) tok;
                 readyState := CONNECTING |}
    /\ length (sockets w') = S (length (sockets w))
    /\ connectionState w' = connecting
    /\ retries w' = 0
    /\ onMessageCallback w' = Some Page.on_message.
Proof.
  intros Hws Hr Hold_id Hold_tok Hn Htok.
  destruct (effect_runs old_id old_tok Hold_id Hold_tok) as [_ ->].
  destruct (effect_runs n tok Hn Htok) as [-> _].
  change (run JSON_parse ([Disconnect] ++ [Connect n tok; OnMessage Page.on_message]) w)
    with (Some (onMessage Page.on_message (connect n tok (disconnect w)))).
  assert (ws_is_open (disconnect w) = false) as Hopen.
  { unfold disconnect, ws_is_open. by rewrite Hws. }
  assert (sockets (disconnect w) = alter close_call h (sockets w)) as Hs1.
  { unfold disconnect. by rewrite Hws. }
  destruct (connect_new_handle (disconnect w) n tok Hopen Htok)
    as (_ & _ & Hre & Hst & Hws2 & Hs2 & _).
  assert (length (sockets (disconnect w)) = length (sockets w)) as Hlen
    by (by rewrite Hs1, length_alter).
  rewrite Hlen in Hws2.
  eexists. split; [done|]. simpl.
  split_and!; try done.
  - unfold ready_of in *; simpl. rewrite Hs2, Hs1.
    destruct (sockets w !! h) as [sock|] eqn:Hsock; [|done].
    injection Hr as Hr.
    rewrite (lookup_app_l_Some _ _ _ (close_call sock)).
    + unfold close_call. by rewrite Hr.
    + by rewrite list_lookup_alter_eq, Hsock.
  - rewrite Hs2, <- Hlen. by apply list_lookup_middle.
  - rewrite Hs2, length_app, Hlen; simpl. lia.
Qed.

End Facts.

End EffectFacts.

(** ** Closed instances of the further properties *)

Module Instances.

Import Api Dashboard Websocket Handlers.

Lemma backoff_is_bounded_by_budget_witness :
  0 <= retries Scenario.backing_off_page <= 5
  /\ Forall (fun delay => delay ∈ [2000; 4000; 8000; 16000; 32000])
       (setTimeout_log Scenario.backing_off_page).
Proof.
  exact (ManagerFacts.backoff_is_bounded_by_budget Scenario.parse
           (seed [Scenario.cpu 10 "T0"])
           [OnMessage Page.on_message; Connect 1 "tok"; SockClose 0 1006]
           Scenario.backing_off_page eq_refl).
Defined.

Lemma held_handle_is_latest_witness :
  ws Scenario.connected_page = Some 0%nat
  /\ 1%nat = length (sockets Scenario.connected_page).
Proof.
  split; [reflexivity|].
  exact (ManagerFacts.held_handle_is_latest Scenario.parse
           (seed [Scenario.cpu 10 "T0"])
           [OnMessage Page.on_message; Connect 1 "tok"; SockOpen 0]
           Scenario.connected_page 0%nat eq_refl eq_refl).
Defined.

Lemma connected_has_open_transport_witness :
  let w := set_ready 0 CLOSING Scenario.connected_page in
  run Scenario.parse
    [OnMessage Page.on_message; Connect 1 "tok"; SockOpen 0; SockClosing 0]
    (fresh (seed [Scenario.cpu 10 "T0"])) = Some w
  /\ connectionState w = connected
  /\ exists h, ready_of h w = Some OPEN \/ ready_of h w = Some CLOSING.
Proof.
  cbv zeta.
  assert (run Scenario.parse
            [OnMessage Page.on_message; Connect 1 "tok"; SockOpen 0;
             SockClosing 0]
            (fresh (seed [Scenario.cpu 10 "T0"]))
          = Some (set_ready 0 CLOSING Scenario.connected_page)) as Hrun
    by (vm_compute; reflexivity).
  split; [exact Hrun|]. split; [reflexivity|].
  exact (ManagerFacts.connected_has_open_transport Scenario.parse
           (seed [Scenario.cpu 10 "T0"])
           [OnMessage Page.on_message; Connect 1 "tok"; SockOpen 0;
            SockClosing 0]
           (set_ready 0 CLOSING Scenario.connected_page) Hrun eq_refl).
Defined.

Lemma error_before_close_is_absorbed_witness :
  run Scenario.parse [SockError 0; SockClose 0 1006] Scenario.connected_page
  = run Scenario.parse [SockClose 0 1006] Scenario.connected_page.
Proof.
  exact (proj1 (ManagerFacts.error_before_close_is_absorbed Scenario.parse
                  Scenario.connected_page 0 1006 OPEN eq_refl
                  ltac:(discriminate))).
Defined.

Lemma messages_are_delivered_in_order_witness :
  consumer <$>
    run Scenario.parse
      [SockMessage 0 Scenario.frame; SockMessage 0 Scenario.frame]
      Scenario.connected_page
  = Some (applyUpdates [Scenario.cpu 15 "T1"; Scenario.cpu 15 "T1"]
            (seed [Scenario.cpu 10 "T0"])).
Proof.
  pose (f := fun (message : WebSocketMessage Metric) (st : State) =>
               if String.eqb (type message) "metric_update"
               then applyUpdate (data message) st else st).
  assert (forall message st, Page.on_message message st = Return (f message st))
    as Hf.
  { intros message st. unfold Page.on_message, f.
    destruct (String.eqb (type message) "metric_update"); reflexivity. }
  assert (Forall2
            (fun text message => Scenario.parse text = Return message)
            [Scenario.frame; Scenario.frame]
            [{| type := "metric_update"; data := Scenario.cpu 15 "T1" |};
             {| type := "metric_update"; data := Scenario.cpu 15 "T1" |}])
    as Hall by (repeat constructor).
  exact (f_equal (fmap consumer)
           (ManagerFacts.messages_are_delivered_in_order Scenario.parse
              Scenario.connected_page 0 Page.on_message f
              [Scenario.frame; Scenario.frame]
              [{| type := "metric_update"; data := Scenario.cpu 15 "T1" |};
               {| type := "metric_update"; data := Scenario.cpu 15 "T1" |}]
              eq_refl eq_refl Hf Hall)).
Defined.

Lemma close_after_disconnect_never_retries_witness :
  exists w',
    run Scenario.parse
      (Disconnect :: [SockError 0; OnMessage Page.on_message]
         ++ [SockClose 0 1006])
      Scenario.connected_page = Some w'
    /\ connectionState w' = disconnected
    /\ retries w' = 5
    /\ setTimeout_log w' = [].
Proof.
  destruct (run Scenario.parse
              (Disconnect :: [SockError 0; OnMessage Page.on_message]
                 ++ [SockClose 0 1006])
              Scenario.connected_page) as [w'|] eqn:Hrun;
    [|vm_compute in Hrun; discriminate Hrun].
  exists w'. split; [reflexivity|].
  destruct (ManagerFacts.close_after_disconnect_never_retries Scenario.parse
              Scenario.connected_page 0
              [SockError 0; OnMessage Page.on_message] 0 1006 w'
              eq_refl ltac:(repeat constructor) Hrun)
    as (Hst & Hre & Hlog & _).
  split_and!; [exact Hst|exact Hre|exact Hlog].
Defined.

Lemma open_resets_backoff_witness :
  exists w',
    run Scenario.parse [Timeout 0; SockOpen 1; SockClose 1 1006]
      Scenario.backing_off_page = Some w'
    /\ retries w' = 1
    /\ timers w' = [2000].
Proof.
  assert (step Scenario.parse (Timeout 0) Scenario.backing_off_page
          = Some (_doConnect (set_timers [] Scenario.backing_off_page)))
    as Hstep by (vm_compute; reflexivity).
  assert (ready_of 1 (_doConnect (set_timers [] Scenario.backing_off_page))
          = Some CONNECTING) as Hready by (vm_compute; reflexivity).
  destruct (ManagerFacts.open_resets_backoff Scenario.parse
              (_doConnect (set_timers [] Scenario.backing_off_page)) 1 1006
              Hready ltac:(discriminate))
    as (w' & Hrun & _ & Hre & Htm & _).
  exists w'. split_and!; [|exact Hre|].
  - cbn [run]. rewrite Hstep. exact Hrun.
  - rewrite Htm. vm_compute. reflexivity.
Defined.

Lemma reconnect_targets_latest_scope_witness :
  exists w',
    run Scenario.parse [Connect 2 "tok"; Timeout 0] Scenario.backing_off_page
    = Some w'
    /\ sock_url <$> sockets w' =
         ["ws://localhost:8000/api/v1/ws/dashboard/1?token=tok";
          "ws://localhost:8000/api/v1/ws/dashboard/2?token=tok";
          "ws://localhost:8000/api/v1/ws/dashboard/2?token=tok"]
    /\ ws w' = Some 2%nat.
Proof.
  destruct (ManagerFacts.reconnect_targets_latest_scope Scenario.parse
              Scenario.backing_off_page 2 "tok" 2000 []
              eq_refl eq_refl ltac:(discriminate))
    as (w' & Hrun & Hs & Hws & _).
  exists w'. split_and!; [exact Hrun| |exact Hws].
  rewrite Hs. reflexivity.
Defined.

Lemma card_matches_last_point_witness :
  let st :=
    applyUpdates [Scenario.cpu 15 "T1"]
      (seed [Scenario.cpu 10 "T0"; Scenario.mem 42 "T0"]) in
  last (history "cpu" st) = Some (point_of (Scenario.cpu 15 "T1")).
Proof.
  cbv zeta.
  assert (NoDup (name <$> [Scenario.cpu 10 "T0"; Scenario.mem 42 "T0"])) as Hnd.
  { apply NoDup_cons. split; [|apply NoDup_singleton].
    intros Hin. apply list_elem_of_singleton in Hin. discriminate Hin. }
  destruct (TableFacts.card_matches_last_point
              [Scenario.cpu 10 "T0"; Scenario.mem 42 "T0"]
              [Scenario.cpu 15 "T1"] Hnd
              (DashboardFacts.ordinary_names_decide
                 [Scenario.cpu 10 "T0"; Scenario.mem 42 "T0"] eq_refl)
              (DashboardFacts.ordinary_names_decide
                 [Scenario.cpu 15 "T1"] eq_refl))
    as [_ Hsynced].
  exact (Hsynced "cpu"
           {| metric := Scenario.cpu 15 "T1"; previousValue := Some 10%float |}
           eq_refl).
Defined.

Lemma history_keeps_latest_100_ordinary_witness :
  let st :=
    applyUpdates [Scenario.cpu 15 "T1"; Scenario.mem 43 "T2"]
      (seed [Scenario.cpu 10 "T0"; Scenario.mem 42 "T0"]) in
  history "cpu" st = [point_of (Scenario.cpu 10 "T0");
                      point_of (Scenario.cpu 15 "T1")].
Proof.
  cbv zeta.
  destruct (TableFacts.history_keeps_latest_100_ordinary
              [Scenario.cpu 10 "T0"; Scenario.mem 42 "T0"]
              [Scenario.cpu 15 "T1"; Scenario.mem 43 "T2"] "cpu"
              (DashboardFacts.ordinary_names_decide
                 [Scenario.cpu 10 "T0"; Scenario.mem 42 "T0"] eq_refl)
              (DashboardFacts.ordinary_names_decide
                 [Scenario.cpu 15 "T1"; Scenario.mem 43 "T2"] eq_refl))
    as (_ & _ & Hfifo & _).
  exact (eq_trans Hfifo eq_refl).
Defined.

Lemma delete_keeps_history_witness :
  let st := seed [Scenario.cpu 10 "T0"] in
  let st1 := deleteMetric 1 st in
  series "cpu" st1 = None
  /\ series "cpu" (applyUpdate (Scenario.cpu 15 "T1") st1)
     = Some (bare (Scenario.cpu 15 "T1"))
  /\ length (history "cpu" (applyUpdate (Scenario.cpu 15 "T1") st1)) = 2%nat.
Proof.
  cbv zeta.
  destruct (TableFacts.delete_keeps_history (seed [Scenario.cpu 10 "T0"])
              "cpu" (bare (Scenario.cpu 10 "T0")) (Scenario.cpu 15 "T1")
              (DashboardFacts.plain_seed [Scenario.cpu 10 "T0"]
                 (DashboardFacts.ordinary_names_decide
                    [Scenario.cpu 10 "T0"] eq_refl))
              (DashboardFacts.ordinary_decide "cpu" eq_refl)
              ltac:(apply NoDup_singleton) eq_refl eq_refl)
    as (Hgone & _ & Hcard & Hhist).
  split_and!; [exact Hgone|exact Hcard|].
  exact (eq_trans (f_equal length Hhist) eq_refl).
Defined.

Lemma switching_dashboards_closes_first_witness :
  exists w',
    run Scenario.parse
      (cleanup (Some 1) (Some "tok") ++ effect (Some 2) (Some "tok"))
      Scenario.connected_page = Some w'
    /\ ready_of 0 w' = Some CLOSING
    /\ ws w' = Some 1%nat
    /\ connectionState w' = connecting.
Proof.
  destruct (EffectFacts.switching_dashboards_closes_first Scenario.parse
              Scenario.connected_page 0 1 "tok" 2 "tok" eq_refl eq_refl
              ltac:(discriminate) ltac:(discriminate)
              ltac:(discriminate) ltac:(discriminate))
    as (w' & Hrun & Hr & Hws & _ & _ & Hst & _).
  exists w'. split_and!; [exact Hrun|exact Hr|exact Hws|exact Hst].
Defined.

End Instances.
